(** * The playback engine ("music manager") of the TAB music player

    A shallow embedding of [createMusicManager] (the playback engine with its
    two backends, the native audio element and the embedded YouTube player)
    and of [convertYouTubeUrl] from the add-song form, with the properties of
    the engine's contract settled against it. The add-song form's [onSubmit]
    and the logic of the timer widget [MiniTimer] are embedded as well.

    JavaScript values are modelled as follows: strings as [string], numbers
    that hold volumes, times and amplitudes as rationals [Q], identifiers
    handed out by the browser ([setInterval], [requestAnimationFrame]) as
    [nat], [null]/[undefined] as [None].

    The engine's closure variables and the part of the browser they act on
    (timers, pending callbacks, the nodes connected to the analyser) form one
    state record; the engine's functions are programs in a state-and-exception
    monad over it. The commands sent to the two backends and the
    notifications sent to the UI are recorded in a trace. The embedded player
    is an external object: it changes state only when it reports a state
    change, and the environment decides whether the browser lets audio
    start. *)

From Stdlib Require Import List String Ascii Bool Arith Lia ZArith QArith Qround.
From Stdlib Require Import Decimal DecimalString DecimalPos DecimalZ.
Import ListNotations.
Local Close Scope Q_scope.
Local Open Scope string_scope.

(** ** URL classification *)

(** The pattern contains ASCII characters only, so matching it against the
    bytes of a url finds the same match as matching it against UTF-16 code
    units. *)

Module Url.

(** The character class [[a-zA-Z0-9_-]]. *)
Definition isIdChar (c : ascii) : bool :=
  let n := nat_of_ascii c in
  (((97 <=? n) && (n <=? 122)) || ((65 <=? n) && (n <=? 90))
   || ((48 <=? n) && (n <=? 57)) || (n =? 95) || (n =? 45))%nat.

(** The greedy run [[a-zA-Z0-9_-]*] at the start of [s]. *)
Fixpoint takeIdChars (s : string) : string :=
  match s with
  | String c s' => if isIdChar c then String c (takeIdChars s') else EmptyString
  | EmptyString => EmptyString
  end.

(** [stripPrefix p s] is the rest of [s] after the literal [p], if [s]
    starts with [p]. *)
Fixpoint stripPrefix (p s : string) : option string :=
  match p with
  | EmptyString => Some s
  | String a p' =>
      match s with
      | String b s' => if Ascii.eqb a b then stripPrefix p' s' else None
      | EmptyString => None
      end
  end.

(** One alternative of the group [(?:youtube\.com\/watch\?v=|youtu\.be\/)]
    followed by [([a-zA-Z0-9_-]+)], anchored at the start of [s]: the capture,
    which needs at least one character. *)
Definition idAfter (lit s : string) : option string :=
  match stripPrefix lit s with
  | Some rest =>
      match takeIdChars rest with
      | EmptyString => None
      | id => Some id
      end
  | None => None
  end.

(** The whole pattern anchored at the start of [s]: the first alternative,
    and on failure the second one. *)
Definition matchHere (s : string) : option string :=
  match idAfter "youtube.com/watch?v=" s with
  | Some id => Some id
  | None => idAfter "youtu.be/" s
  end.

(** [/(?:youtube\.com\/watch\?v=|youtu\.be\/)([a-zA-Z0-9_-]+)/] searched in
    [s] from the left: capture group 1 of the leftmost match. *)
Fixpoint regexExec (s : string) : option string :=
  match matchHere s with
  | Some id => Some id
  | None =>
      match s with
      | String _ s' => regexExec s'
      | EmptyString => None
      end
  end.

(** [isYouTubeUrl]: [regex.test(url)]. *)
Definition isYouTubeUrl (url : string) : bool :=
  match regexExec url with
  | Some _ => true
  | None => false
  end.

(** [getYouTubeVideoId]: [match ? match[1] : null]. *)
Definition getYouTubeVideoId (url : string) : option string :=
  match regexExec url with
  | Some id => Some id
  | None => None
  end.

(** [convertYouTubeUrl] of the add-song form (the form applies it to the
    trimmed input). *)
Definition convertYouTubeUrl (url : string) : string :=
  match regexExec url with
  | Some videoId => "https://www.youtube.com/watch?v=" ++ videoId
  | None => url
  end.

(** The two input forms of a video id. *)
Definition longForm (id : string) : string := "https://www.youtube.com/watch?v=" ++ id.
Definition shortForm (id : string) : string := "https://youtu.be/" ++ id.

(** A video id as the pattern captures it: a non-empty run of id characters. *)
Fixpoint allIdChars (s : string) : bool :=
  match s with
  | String c s' => isIdChar c && allIdChars s'
  | EmptyString => true
  end.

Definition validId (id : string) : bool :=
  match id with
  | EmptyString => false
  | _ => allIdChars id
  end.

(** What may follow a video id in a url: nothing, or a character outside the
    class. *)
Definition endsId (rest : string) : bool :=
  match rest with
  | EmptyString => true
  | String c _ => negb (isIdChar c)
  end.

End Url.

(** ** The engine's data *)

(** [Song] of [@/music/data]. *)
Record Song := {
  name : string;
  url : string;
  author : string;
  isCustom : bool
}.

(** ['audio' | 'youtube'], the type of [currentSongType]. *)
Inductive SongType := audio_type | youtube_type.

(** [context.state] of the [AudioContext]; the engine never closes it. *)
Inductive ContextState := suspended | running.

(** [YT.PlayerState]. *)
Inductive PlayerState := UNSTARTED | ENDED | PLAYING | PAUSED | BUFFERING | CUED.

(** The exceptions and promise rejections that the engine's calls can meet. *)
Inductive Error := TypeError | InvalidStateError | NotAllowedError | IndexSizeError.

Inductive AudioEvent := ev_timeupdate | ev_play | ev_pause | ev_ended.

(** The three callbacks that [init] registers on the audio element. *)
Inductive Handler := h_onTimeUpdate | h_onStateChange | h_onEnded.

(** The [HTMLAudioElement]. *)
Record Audio := {
  src : string;
  paused : bool;
  volume : Q;
  currentTime : Q;
  duration : Q;
  listeners : list (AudioEvent * Handler)
}.

(** The [YT.Player] object. Its API methods ([playVideo], [getVolume], ...)
    are installed on the object only once the player is ready, which is what
    the guards [youtubePlayer && youtubePlayer.playVideo] of the source test:
    [hasApi] says whether they are there. The player is an external object:
    [playerState] is the state it last reported, and it keeps the volume and
    the position it is given. *)
Record Player := {
  hasApi : bool;
  playerState : PlayerState;
  playerVolume : Q;
  playerTime : Q;
  playerDuration : Q;
  destroyed : bool
}.

(** The [OscillatorNode] held in [oscillator], with the [_animationId]
    property that [startYouTubeVisualization] puts on it. *)
Record Oscillator := {
  started : bool;
  connected : bool;
  _animationId : option nat
}.

(** What is connected to the analyser: the media element's source ([init]) and
    the gain nodes that [startYouTubeVisualization] creates. *)
Inductive AudioNode := MediaElementSource | GainNode (gain : Q).

(** A callback pending in [requestAnimationFrame]: [updateVisualizationData]
    with the [timeOffset] of the closure it belongs to. *)
Record Frame := {
  frameId : nat;
  timeOffset : Q
}.

(** A callback pending in [setTimeout]: the delayed [this.play()] of
    [setPlaying] (500 ms) or the delayed [initYouTubePlayer] (100 ms). *)
Inductive Task := DelayedPlay | InitPlayer.

(** Modelled from the spec: the queue state of the Playlist Sequencer
    ([@/lib/queue-manager], not among the sources): the ordered songs and the
    current position, if any. *)
Record Queue := {
  songs : list Song;
  currentIndex : option nat
}.

(** Commands issued to the two backends and notifications sent to the UI
    callbacks ([options.onStateChange], [options.onTimeUpdate],
    [options.onNext]), in the order they happen. *)
Inductive Effect :=
| AudioPlay
| AudioPause
| AudioSrc (u : string)
| ContextResume
| PlayVideo
| PauseVideo
| StopVideo
| LoadVideoById (id : string)
| SeekTo (t : Q)
| SetVolume (v : Q)
| DestroyPlayer
| NotifyStateChange
| NotifyTimeUpdate (t d : Q)
| NotifyNext (song : option Song)
| Uncaught (e : Error)   (* an unhandled rejection, or an exception leaving a callback *)
| ConsoleLog.

(** The closure variables of [createMusicManager], followed by the part of
    the browser they act on. *)
Record Engine := {
  contextState : ContextState;
  audio : Audio;
  youtubePlayer : option Player;
  currentSongType : SongType;
  youtubeTimeUpdateInterval : option nat;
  oscillator : option Oscillator;
  queue : Queue;
  (* the browser *)
  analyserInputs : list AudioNode;  (* nodes connected to [analyser] *)
  windowYT : bool;                  (* [window.YT && window.YT.Player] *)
  apiReadyCallback : bool;          (* [window.onYouTubeIframeAPIReady] is set *)
  intervals : list nat;             (* the running [setInterval] timers *)
  timeouts : list Task;             (* the pending [setTimeout] callbacks *)
  frames : list Frame;              (* the pending animation-frame callbacks *)
  nextId : nat;                     (* the next timer or frame id *)
  resumeRejects : bool;             (* the browser rejects [context.resume()] *)
  playRejects : bool;               (* the browser rejects [audio.play()] *)
  trace : list Effect               (* most recent first *)
}.

Definition set_contextState (v : ContextState) (s : Engine) : Engine :=
  {| contextState := v; audio := audio s; youtubePlayer := youtubePlayer s;
     currentSongType := currentSongType s;
     youtubeTimeUpdateInterval := youtubeTimeUpdateInterval s; oscillator := oscillator s;
     queue := queue s; analyserInputs := analyserInputs s; windowYT := windowYT s;
     apiReadyCallback := apiReadyCallback s; intervals := intervals s;
     timeouts := timeouts s; frames := frames s; nextId := nextId s;
     resumeRejects := resumeRejects s; playRejects := playRejects s; trace := trace s |}.
Definition set_audio (v : Audio) (s : Engine) : Engine :=
  {| contextState := contextState s; audio := v; youtubePlayer := youtubePlayer s;
     currentSongType := currentSongType s;
     youtubeTimeUpdateInterval := youtubeTimeUpdateInterval s; oscillator := oscillator s;
     queue := queue s; analyserInputs := analyserInputs s; windowYT := windowYT s;
     apiReadyCallback := apiReadyCallback s; intervals := intervals s;
     timeouts := timeouts s; frames := frames s; nextId := nextId s;
     resumeRejects := resumeRejects s; playRejects := playRejects s; trace := trace s |}.
Definition set_youtubePlayer (v : option Player) (s : Engine) : Engine :=
  {| contextState := contextState s; audio := audio s; youtubePlayer := v;
     currentSongType := currentSongType s;
     youtubeTimeUpdateInterval := youtubeTimeUpdateInterval s; oscillator := oscillator s;
     queue := queue s; analyserInputs := analyserInputs s; windowYT := windowYT s;
     apiReadyCallback := apiReadyCallback s; intervals := intervals s;
     timeouts := timeouts s; frames := frames s; nextId := nextId s;
     resumeRejects := resumeRejects s; playRejects := playRejects s; trace := trace s |}.
Definition set_currentSongType (v : SongType) (s : Engine) : Engine :=
  {| contextState := contextState s; audio := audio s; youtubePlayer := youtubePlayer s;
     currentSongType := v; youtubeTimeUpdateInterval := youtubeTimeUpdateInterval s;
     oscillator := oscillator s; queue := queue s; analyserInputs := analyserInputs s;
     windowYT := windowYT s; apiReadyCallback := apiReadyCallback s;
     intervals := intervals s; timeouts := timeouts s; frames := frames s;
     nextId := nextId s; resumeRejects := resumeRejects s; playRejects := playRejects s;
     trace := trace s |}.
Definition set_youtubeTimeUpdateInterval (v : option nat) (s : Engine) : Engine :=
  {| contextState := contextState s; audio := audio s; youtubePlayer := youtubePlayer s;
     currentSongType := currentSongType s; youtubeTimeUpdateInterval := v;
     oscillator := oscillator s; queue := queue s; analyserInputs := analyserInputs s;
     windowYT := windowYT s; apiReadyCallback := apiReadyCallback s;
     intervals := intervals s; timeouts := timeouts s; frames := frames s;
     nextId := nextId s; resumeRejects := resumeRejects s; playRejects := playRejects s;
     trace := trace s |}.
Definition set_oscillator (v : option Oscillator) (s : Engine) : Engine :=
  {| contextState := contextState s; audio := audio s; youtubePlayer := youtubePlayer s;
     currentSongType := currentSongType s;
     youtubeTimeUpdateInterval := youtubeTimeUpdateInterval s; oscillator := v;
     queue := queue s; analyserInputs := analyserInputs s; windowYT := windowYT s;
     apiReadyCallback := apiReadyCallback s; intervals := intervals s;
     timeouts := timeouts s; frames := frames s; nextId := nextId s;
     resumeRejects := resumeRejects s; playRejects := playRejects s; trace := trace s |}.
Definition set_queue (v : Queue) (s : Engine) : Engine :=
  {| contextState := contextState s; audio := audio s; youtubePlayer := youtubePlayer s;
     currentSongType := currentSongType s;
     youtubeTimeUpdateInterval := youtubeTimeUpdateInterval s; oscillator := oscillator s;
     queue := v; analyserInputs := analyserInputs s; windowYT := windowYT s;
     apiReadyCallback := apiReadyCallback s; intervals := intervals s;
     timeouts := timeouts s; frames := frames s; nextId := nextId s;
     resumeRejects := resumeRejects s; playRejects := playRejects s; trace := trace s |}.
Definition set_analyserInputs (v : list AudioNode) (s : Engine) : Engine :=
  {| contextState := contextState s; audio := audio s; youtubePlayer := youtubePlayer s;
     currentSongType := currentSongType s;
     youtubeTimeUpdateInterval := youtubeTimeUpdateInterval s; oscillator := oscillator s;
     queue := queue s; analyserInputs := v; windowYT := windowYT s;
     apiReadyCallback := apiReadyCallback s; intervals := intervals s;
     timeouts := timeouts s; frames := frames s; nextId := nextId s;
     resumeRejects := resumeRejects s; playRejects := playRejects s; trace := trace s |}.
Definition set_windowYT (v : bool) (s : Engine) : Engine :=
  {| contextState := contextState s; audio := audio s; youtubePlayer := youtubePlayer s;
     currentSongType := currentSongType s;
     youtubeTimeUpdateInterval := youtubeTimeUpdateInterval s; oscillator := oscillator s;
     queue := queue s; analyserInputs := analyserInputs s; windowYT := v;
     apiReadyCallback := apiReadyCallback s; intervals := intervals s;
     timeouts := timeouts s; frames := frames s; nextId := nextId s;
     resumeRejects := resumeRejects s; playRejects := playRejects s; trace := trace s |}.
Definition set_apiReadyCallback (v : bool) (s : Engine) : Engine :=
  {| contextState := contextState s; audio := audio s; youtubePlayer := youtubePlayer s;
     currentSongType := currentSongType s;
     youtubeTimeUpdateInterval := youtubeTimeUpdateInterval s; oscillator := oscillator s;
     queue := queue s; analyserInputs := analyserInputs s; windowYT := windowYT s;
     apiReadyCallback := v; intervals := intervals s; timeouts := timeouts s;
     frames := frames s; nextId := nextId s; resumeRejects := resumeRejects s;
     playRejects := playRejects s; trace := trace s |}.
Definition set_intervals (v : list nat) (s : Engine) : Engine :=
  {| contextState := contextState s; audio := audio s; youtubePlayer := youtubePlayer s;
     currentSongType := currentSongType s;
     youtubeTimeUpdateInterval := youtubeTimeUpdateInterval s; oscillator := oscillator s;
     queue := queue s; analyserInputs := analyserInputs s; windowYT := windowYT s;
     apiReadyCallback := apiReadyCallback s; intervals := v; timeouts := timeouts s;
     frames := frames s; nextId := nextId s; resumeRejects := resumeRejects s;
     playRejects := playRejects s; trace := trace s |}.
Definition set_timeouts (v : list Task) (s : Engine) : Engine :=
  {| contextState := contextState s; audio := audio s; youtubePlayer := youtubePlayer s;
     currentSongType := currentSongType s;
     youtubeTimeUpdateInterval := youtubeTimeUpdateInterval s; oscillator := oscillator s;
     queue := queue s; analyserInputs := analyserInputs s; windowYT := windowYT s;
     apiReadyCallback := apiReadyCallback s; intervals := intervals s; timeouts := v;
     frames := frames s; nextId := nextId s; resumeRejects := resumeRejects s;
     playRejects := playRejects s; trace := trace s |}.
Definition set_frames (v : list Frame) (s : Engine) : Engine :=
  {| contextState := contextState s; audio := audio s; youtubePlayer := youtubePlayer s;
     currentSongType := currentSongType s;
     youtubeTimeUpdateInterval := youtubeTimeUpdateInterval s; oscillator := oscillator s;
     queue := queue s; analyserInputs := analyserInputs s; windowYT := windowYT s;
     apiReadyCallback := apiReadyCallback s; intervals := intervals s;
     timeouts := timeouts s; frames := v; nextId := nextId s;
     resumeRejects := resumeRejects s; playRejects := playRejects s; trace := trace s |}.
Definition set_nextId (v : nat) (s : Engine) : Engine :=
  {| contextState := contextState s; audio := audio s; youtubePlayer := youtubePlayer s;
     currentSongType := currentSongType s;
     youtubeTimeUpdateInterval := youtubeTimeUpdateInterval s; oscillator := oscillator s;
     queue := queue s; analyserInputs := analyserInputs s; windowYT := windowYT s;
     apiReadyCallback := apiReadyCallback s; intervals := intervals s;
     timeouts := timeouts s; frames := frames s; nextId := v;
     resumeRejects := resumeRejects s; playRejects := playRejects s; trace := trace s |}.
Definition set_trace (v : list Effect) (s : Engine) : Engine :=
  {| contextState := contextState s; audio := audio s; youtubePlayer := youtubePlayer s;
     currentSongType := currentSongType s;
     youtubeTimeUpdateInterval := youtubeTimeUpdateInterval s; oscillator := oscillator s;
     queue := queue s; analyserInputs := analyserInputs s; windowYT := windowYT s;
     apiReadyCallback := apiReadyCallback s; intervals := intervals s;
     timeouts := timeouts s; frames := frames s; nextId := nextId s;
     resumeRejects := resumeRejects s; playRejects := playRejects s; trace := v |}.

Definition set_paused (v : bool) (a : Audio) : Audio :=
  {| src := src a; paused := v; volume := volume a; currentTime := currentTime a;
     duration := duration a; listeners := listeners a |}.
Definition set_src (v : string) (a : Audio) : Audio :=
  {| src := v; paused := paused a; volume := volume a; currentTime := currentTime a;
     duration := duration a; listeners := listeners a |}.
Definition set_volume (v : Q) (a : Audio) : Audio :=
  {| src := src a; paused := paused a; volume := v; currentTime := currentTime a;
     duration := duration a; listeners := listeners a |}.
Definition set_currentTime (v : Q) (a : Audio) : Audio :=
  {| src := src a; paused := paused a; volume := volume a; currentTime := v;
     duration := duration a; listeners := listeners a |}.
Definition set_listeners (v : list (AudioEvent * Handler)) (a : Audio) : Audio :=
  {| src := src a; paused := paused a; volume := volume a; currentTime := currentTime a;
     duration := duration a; listeners := v |}.

(** ** Control flow: state, exceptions and rejected promises *)

(** How a call ends: it returns, or it throws (for the [async] [play]: the
    promise it returns is rejected). *)
Inductive Completion (A : Type) :=
| Normal (a : A)
| Throw (e : Error).
Arguments Normal {A} a.
Arguments Throw {A} e.

Definition M (A : Type) : Type := Engine -> Completion A * Engine.

Definition ret {A} (a : A) : M A := fun s => (Normal a, s).

Definition bind {A B} (m : M A) (k : A -> M B) : M B :=
  fun s =>
    match m s with
    | (Normal a, s') => k a s'
    | (Throw e, s') => (Throw e, s')
    end.

Definition throw {A} (e : Error) : M A := fun s => (Throw e, s).

(** [try { body } catch (e) { handler }]. *)
Definition tryCatch {A} (body : M A) (handler : Error -> M A) : M A :=
  fun s =>
    match body s with
    | (Normal a, s') => (Normal a, s')
    | (Throw e, s') => handler e s'
    end.

Definition get : M Engine := fun s => (Normal s, s).
Definition modify (f : Engine -> Engine) : M unit := fun s => (Normal tt, f s).

Notation "x <- m ;; k" := (bind m (fun x => k))
  (at level 61, m at next level, right associativity).
Notation "m ;; k" := (bind m (fun _ => k))
  (at level 61, right associativity).

Definition when (b : bool) (m : M unit) : M unit := if b then m else ret tt.

(** The state a call leaves behind, whether it returns or throws. *)
Definition exec {A} (m : M A) (s : Engine) : Engine := snd (m s).

Definition emit (e : Effect) : M unit :=
  modify (fun s => set_trace (e :: trace s) s).

(** A call of an [async] function whose promise nobody awaits: a rejection
    stays unhandled and the caller goes on. *)
Definition detach (m : M unit) : M unit :=
  tryCatch m (fun e => emit (Uncaught e)).

(** JavaScript truthiness of a timer or frame id ([if (id)]): [undefined]
    and [0] are falsy. *)
Definition truthy (id : option nat) : bool :=
  match id with
  | Some (S _) => true
  | _ => false
  end.

(** ** The browser's side *)

Definition PlayerState_eqb (a b : PlayerState) : bool :=
  match a, b with
  | UNSTARTED, UNSTARTED | ENDED, ENDED | PLAYING, PLAYING
  | PAUSED, PAUSED | BUFFERING, BUFFERING | CUED, CUED => true
  | _, _ => false
  end.

Definition AudioEvent_eqb (a b : AudioEvent) : bool :=
  match a, b with
  | ev_timeupdate, ev_timeupdate | ev_play, ev_play
  | ev_pause, ev_pause | ev_ended, ev_ended => true
  | _, _ => false
  end.

Definition Handler_eqb (a b : Handler) : bool :=
  match a, b with
  | h_onTimeUpdate, h_onTimeUpdate | h_onStateChange, h_onStateChange
  | h_onEnded, h_onEnded => true
  | _, _ => false
  end.

Definition sameListener (a b : AudioEvent * Handler) : bool :=
  AudioEvent_eqb (fst a) (fst b) && Handler_eqb (snd a) (snd b).

(** [audio.addEventListener(e, h)]: a listener already there is not added
    again. *)
Definition addEventListener (e : AudioEvent) (h : Handler) : M unit :=
  modify (fun s =>
    let a := audio s in
    if existsb (sameListener (e, h)) (listeners a) then s
    else set_audio (set_listeners (listeners a ++ [(e, h)]) a) s).

(** [audio.removeEventListener(e, h)]. *)
Definition removeEventListener (e : AudioEvent) (h : Handler) : M unit :=
  modify (fun s =>
    let a := audio s in
    set_audio
      (set_listeners (filter (fun l => negb (sameListener (e, h) l)) (listeners a)) a) s).

(** [window.setInterval(callback, 250)]; the engine's only interval callback
    is [onTimeUpdate]. *)
Definition setInterval : M nat :=
  s <- get;;
  let id := nextId s in
  modify (fun s => set_nextId (S id) (set_intervals (intervals s ++ [id]) s));;
  ret id.

Definition clearInterval (id : nat) : M unit :=
  modify (fun s => set_intervals (filter (fun i => negb (i =? id)%nat) (intervals s)) s).

Definition setTimeout (t : Task) : M unit :=
  modify (fun s => set_timeouts (timeouts s ++ [t]) s).

(** [requestAnimationFrame(updateVisualizationData)] from the closure whose
    [timeOffset] is [t]. *)
Definition requestAnimationFrame (t : Q) : M nat :=
  s <- get;;
  let id := nextId s in
  modify (fun s =>
    set_nextId (S id) (set_frames (frames s ++ [{| frameId := id; timeOffset := t |}]) s));;
  ret id.

Definition cancelAnimationFrame (id : nat) : M unit :=
  modify (fun s => set_frames (filter (fun f => negb (frameId f =? id)%nat) (frames s)) s).

(** [audio.pause()]. *)
Definition audioPause : M unit :=
  emit AudioPause;;
  modify (fun s => set_audio (set_paused true (audio s)) s).

(** [await audio.play()]: the browser may reject it (no user gesture), and
    then the element stays as it was. *)
Definition audioPlay : M unit :=
  emit AudioPlay;;
  s <- get;;
  if playRejects s then throw NotAllowedError
  else modify (fun s => set_audio (set_paused false (audio s)) s).

(** [await context.resume()]: the browser may reject it, and then the context
    stays suspended. *)
Definition contextResume : M unit :=
  emit ContextResume;;
  s <- get;;
  if resumeRejects s then throw NotAllowedError
  else modify (set_contextState running).

(** A method call [youtubePlayer.m(...)] that the source does not guard by
    [youtubePlayer.m]: a [TypeError] when the method is not there. *)
Definition callPlayer (e : Effect) : M unit :=
  s <- get;;
  match youtubePlayer s with
  | Some p => if hasApi p then emit e else throw TypeError
  | None => throw TypeError
  end.

Definition updatePlayer (f : Player -> Player) : M unit :=
  modify (fun s => set_youtubePlayer (option_map f (youtubePlayer s)) s).

Definition updateOscillator (f : Oscillator -> Oscillator) : M unit :=
  modify (fun s => set_oscillator (option_map f (oscillator s)) s).

(** [oscillator.stop()]: an [InvalidStateError] on an oscillator that was
    never started. *)
Definition oscillatorStop (osc : Oscillator) : M unit :=
  if started osc then ret tt else throw InvalidStateError.

(** ** The engine: [createMusicManager] *)

(** The guard [currentSongType === 'youtube' && youtubePlayer &&
    youtubePlayer.<method>] that the manager's methods start with. *)
Definition youtubeReady (s : Engine) : option Player :=
  match currentSongType s, youtubePlayer s with
  | youtube_type, Some p => if hasApi p then Some p else None
  | _, _ => None
  end.

Definition onStateChange : M unit := emit NotifyStateChange.

Definition onTimeUpdate : M unit :=
  s <- get;;
  match currentSongType s with
  | audio_type =>
      emit (NotifyTimeUpdate (currentTime (audio s)) (duration (audio s)))
  | youtube_type =>
      match youtubePlayer s with
      | Some p =>
          if hasApi p then emit (NotifyTimeUpdate (playerTime p) (playerDuration p))
          else ret tt
      | None => ret tt
      end
  end.

Definition stopYouTubeVisualization : M unit :=
  s <- get;;
  match oscillator s with
  | Some osc =>
      tryCatch
        (when (truthy (_animationId osc))
           (match _animationId osc with
            | Some id => cancelAnimationFrame id
            | None => ret tt
            end);;
         oscillatorStop osc;;
         updateOscillator (fun o =>
           {| started := started o; connected := false; _animationId := _animationId o |}))
        (fun _ => ret tt);;
      modify (set_oscillator None)
  | None => ret tt
  end.

(** One run of the closure [updateVisualizationData] whose [timeOffset] is
    [t]. The [dataArray] it fills is a local that nothing reads afterwards
    (see [dataArray] below for its contents), so the run leaves only the
    next frame request behind. *)
Definition updateVisualizationData (t : Q) : M unit :=
  s <- get;;
  match oscillator s with
  | None => ret tt
  | Some _ =>
      let t' := (t + (1 # 10))%Q in
      animationId <- requestAnimationFrame t';;
      ret tt
  end.

Definition startYouTubeVisualization : M unit :=
  s <- get;;
  when (match oscillator s with Some _ => true | None => false end)
    stopYouTubeVisualization;;
  (* [let animationId: number; let timeOffset = 0;] *)
  let animationId : option nat := None in
  let timeOffset0 : Q := 0%Q in
  (* [oscillator = context.createOscillator()] and the silent gain *)
  modify (set_oscillator (Some {| started := false; connected := false; _animationId := None |}));;
  updateOscillator (fun o =>
    {| started := started o; connected := true; _animationId := _animationId o |});;
  modify (fun s => set_analyserInputs (GainNode 0%Q :: analyserInputs s) s);;
  (* [oscillator.start()] *)
  updateOscillator (fun o =>
    {| started := true; connected := connected o; _animationId := _animationId o |});;
  (* [(oscillator as any)._animationId = animationId], still unassigned *)
  updateOscillator (fun o =>
    {| started := started o; connected := connected o; _animationId := animationId |});;
  updateVisualizationData timeOffset0.

Definition getTime (s : Engine) : Q :=
  match youtubeReady s with
  | Some p => playerTime p
  | None => currentTime (audio s)
  end.

Definition getDuration (s : Engine) : Q :=
  match youtubeReady s with
  | Some p => playerDuration p
  | None => duration (audio s)
  end.

Definition setTime (time : Q) : M unit :=
  s <- get;;
  match youtubeReady s with
  | Some _ =>
      emit (SeekTo time);;
      updatePlayer (fun p =>
        {| hasApi := hasApi p; playerState := playerState p; playerVolume := playerVolume p;
           playerTime := time; playerDuration := playerDuration p; destroyed := destroyed p |})
  | None => modify (fun s => set_audio (set_currentTime time (audio s)) s)
  end.

Definition isPaused (s : Engine) : bool :=
  match youtubeReady s with
  | Some p => negb (PlayerState_eqb (playerState p) PLAYING)
  | None =>
      match contextState s with
      | suspended => true
      | running => paused (audio s)
      end
  end.

Definition getVolume (s : Engine) : Q :=
  match youtubeReady s with
  | Some p => (playerVolume p / 100)%Q
  | None => volume (audio s)
  end.

(** [audio.volume = v] throws an [IndexSizeError] outside [0, 1]. *)
Definition setVolume (v : Q) : M unit :=
  s <- get;;
  match youtubeReady s with
  | Some _ =>
      emit (SetVolume (v * 100)%Q);;
      updatePlayer (fun p =>
        {| hasApi := hasApi p; playerState := playerState p; playerVolume := (v * 100)%Q;
           playerTime := playerTime p; playerDuration := playerDuration p;
           destroyed := destroyed p |})
  | None =>
      if Qle_bool 0 v && Qle_bool v 1
      then modify (fun s => set_audio (set_volume v (audio s)) s)
      else throw IndexSizeError
  end.

(** [async play()]. [Throw e] is the rejection of the promise it returns.
    This is the call together with what follows its [await]s, run in place:
    all of [play()] when nothing else happens before the awaited promises
    have settled. [playUntilAwait] and [playAfterAwait] below are its two
    parts, for what happens when something does. *)
Definition play : M unit :=
  s <- get;;
  match youtubeReady s with
  | Some _ =>
      emit PlayVideo;;
      s <- get;;
      when (truthy (youtubeTimeUpdateInterval s))
        (match youtubeTimeUpdateInterval s with
         | Some id => clearInterval id
         | None => ret tt
         end);;
      id <- setInterval;;
      modify (set_youtubeTimeUpdateInterval (Some id))
  | None =>
      when (match contextState s with suspended => true | running => false end)
        contextResume;;
      audioPlay
  end.

Definition pause : M unit :=
  s <- get;;
  match youtubeReady s with
  | Some _ =>
      emit PauseVideo;;
      stopYouTubeVisualization;;
      s <- get;;
      when (truthy (youtubeTimeUpdateInterval s))
        (match youtubeTimeUpdateInterval s with
         | Some id => clearInterval id
         | None => ret tt
         end;;
         modify (set_youtubeTimeUpdateInterval None))
  | None => audioPause
  end.

(** The first half of [setPlaying], under its comment [// Stop current
    playback]. *)
Definition stopCurrentPlayback : M unit :=
  s <- get;;
  match currentSongType s, youtubePlayer s with
  | youtube_type, Some _ =>
      callPlayer StopVideo;;
      stopYouTubeVisualization;;
      s <- get;;
      when (truthy (youtubeTimeUpdateInterval s))
        (match youtubeTimeUpdateInterval s with
         | Some id => clearInterval id
         | None => ret tt
         end;;
         modify (set_youtubeTimeUpdateInterval None))
  | _, _ => audioPause
  end.

(** The second half of [setPlaying]: the backend is chosen from the url and
    the song is loaded into it. *)
Definition loadSong (wasPlaying : bool) (song : Song) : M unit :=
  if Url.isYouTubeUrl (url song) then
    let videoId := Url.getYouTubeVideoId (url song) in
    s <- get;;
    match videoId, youtubePlayer s with
    | Some id, Some _ =>
        if (id =? "")%string then ret tt
        else
          modify (set_currentSongType youtube_type);;
          callPlayer (LoadVideoById id);;
          when wasPlaying (setTimeout DelayedPlay)
    | _, _ => ret tt
    end
  else
    modify (set_currentSongType audio_type);;
    emit (AudioSrc (url song));;
    modify (fun s => set_audio (set_src (url song) (audio s)) s);;
    when wasPlaying (detach play).

Definition setPlaying (song : Song) : M unit :=
  s <- get;;
  let wasPlaying := negb (isPaused s) in
  stopCurrentPlayback;;
  loadSong wasPlaying song.

Definition destroy : M unit :=
  pause;;
  removeEventListener ev_play h_onStateChange;;
  removeEventListener ev_pause h_onStateChange;;
  removeEventListener ev_timeupdate h_onTimeUpdate;;
  removeEventListener ev_ended h_onEnded;;
  s <- get;;
  when (truthy (youtubeTimeUpdateInterval s))
    (match youtubeTimeUpdateInterval s with
     | Some id => clearInterval id
     | None => ret tt
     end);;
  stopYouTubeVisualization;;
  s <- get;;
  match youtubePlayer s with
  | Some _ =>
      emit DestroyPlayer;;
      updatePlayer (fun p =>
        {| hasApi := hasApi p; playerState := playerState p; playerVolume := playerVolume p;
           playerTime := playerTime p; playerDuration := playerDuration p; destroyed := true |})
  | None => ret tt
  end.

Definition set_policy (rr pr : bool) (s : Engine) : Engine :=
  {| contextState := contextState s; audio := audio s; youtubePlayer := youtubePlayer s;
     currentSongType := currentSongType s;
     youtubeTimeUpdateInterval := youtubeTimeUpdateInterval s; oscillator := oscillator s;
     queue := queue s; analyserInputs := analyserInputs s; windowYT := windowYT s;
     apiReadyCallback := apiReadyCallback s; intervals := intervals s;
     timeouts := timeouts s; frames := frames s; nextId := nextId s; resumeRejects := rr;
     playRejects := pr; trace := trace s |}.

(** [initYouTubePlayer]: without the IFrame API it leaves a callback for the
    API to call; with it, it creates the player, whose methods come later. *)
Definition initYouTubePlayer : M unit :=
  s <- get;;
  if negb (windowYT s) then modify (set_apiReadyCallback true)
  else
    modify (set_youtubePlayer
      (Some {| hasApi := false; playerState := UNSTARTED; playerVolume := 100%Q;
               playerTime := 0%Q; playerDuration := 0%Q; destroyed := false |})).

(** An exception that leaves an event callback or a timer callback: the
    browser reports it and goes on. *)
Definition reportErrors (m : M unit) : M unit :=
  tryCatch m (fun e => emit (Uncaught e)).

(** [play()] in two parts. An [async] function runs up to its first [await]
    within the call; what follows the [await] runs once the awaited promise
    has settled, after everything else that the calling task does.
    [playUntilAwait] is the part within the call. With the audio element in
    charge and the context suspended it issues [context.resume()] and leaves
    the rest pending ([true]); in every other case the call is all of
    [play()]: [playVideo()] and the interval are set up without an [await],
    and [await audio.play()] is the last step of the function. *)
Definition playUntilAwait : M bool :=
  s <- get;;
  match youtubeReady s, contextState s with
  | None, suspended => emit ContextResume;; ret true
  | _, _ => play;; ret false
  end.

(** The rest of [play()] after [await context.resume()]: a rejected resume
    rejects the promise of [play()]; otherwise the context runs and
    [audio.play()] is called. *)
Definition playAfterAwait : M unit :=
  s <- get;;
  if resumeRejects s then throw NotAllowedError
  else modify (set_contextState running);; audioPlay.

(** A call of [play()] by a caller that drops the promise, followed in the
    same task by [rest]: the pending part of [play()] runs after [rest]. *)
Definition playThen (rest : M unit) : M unit :=
  awaiting <- tryCatch playUntilAwait (fun e => emit (Uncaught e);; ret false);;
  reportErrors rest;;
  when awaiting (detach playAfterAwait).

Fixpoint forEach {A} (l : list A) (f : A -> M unit) : M unit :=
  match l with
  | [] => ret tt
  | x :: l' => f x;; forEach l' f
  end.

Fixpoint removeNth {A} (n : nat) (l : list A) : list A :=
  match l, n with
  | [], _ => []
  | _ :: l', O => l'
  | x :: l', S n' => x :: removeNth n' l'
  end.

(** The wrap-around policy that the spec gives as its example for [next()]:
    after the last song comes the first one. *)
Definition wrapNext (len : nat) (current : option nat) : option nat :=
  match len with
  | O => None
  | S _ =>
      match current with
      | None => Some 0
      | Some i => Some (S i mod len)
      end
  end.

Section Sequencer.

(** Modelled from the spec: the queue manager ([@/lib/queue-manager]) is not
    among the sources, and the spec leaves open where [next()] goes from the
    last song. [nextIndex len current] is that policy: the position after
    [current] in a list of [len] songs. *)
Variable nextIndex : nat -> option nat -> option nat.

(** The [onUpdate] callback that [createMusicManager] gives the queue
    manager. *)
Definition onUpdate (song : option Song) : M unit :=
  match song with
  | Some sg => setPlaying sg
  | None => ret tt
  end;;
  emit (NotifyNext song);;
  emit (NotifyTimeUpdate 0 0)%Q.

(** Modelled from the spec: [queueManager.next()] advances to the next index
    by the policy and fires the selection callback with the new current song,
    or with [undefined] when there is none. *)
Definition queueNext : M unit :=
  s <- get;;
  let q := queue s in
  let i := nextIndex (List.length (songs q)) (currentIndex q) in
  modify (set_queue {| songs := songs q; currentIndex := i |});;
  onUpdate (match i with
            | Some k => nth_error (songs q) k
            | None => None
            end).

(** Modelled from the spec: [queueManager.setSongs(list)] replaces the song
    list; the selection follows the selected song's url into the new list and
    is cleared when the url is gone. The engine calls it from [init] only,
    where nothing is selected yet. *)
Fixpoint indexOfUrl (u : string) (l : list Song) : option nat :=
  match l with
  | [] => None
  | sg :: l' =>
      if (url sg =? u)%string then Some 0
      else option_map S (indexOfUrl u l')
  end.

Definition setSongs (list : list Song) : M unit :=
  modify (fun s =>
    let q := queue s in
    let selected :=
      match currentIndex q with
      | Some i => nth_error (songs q) i
      | None => None
      end in
    set_queue {| songs := list;
                 currentIndex := match selected with
                                 | Some sg => indexOfUrl (url sg) list
                                 | None => None
                                 end |} s).

Definition onEnded : M unit :=
  queueNext;;
  detach play.

(** The [onStateChange] event handler given to [new YT.Player]. *)
Definition playerOnStateChange (data : PlayerState) : M unit :=
  match data with
  | ENDED => onEnded
  | PLAYING => startYouTubeVisualization;; onStateChange
  | PAUSED => stopYouTubeVisualization;; onStateChange
  | _ => ret tt
  end.

Definition runHandler (h : Handler) : M unit :=
  match h with
  | h_onTimeUpdate => onTimeUpdate
  | h_onStateChange => onStateChange
  | h_onEnded => onEnded
  end.

Definition init (stored : list Song) : M unit :=
  modify (fun s => set_analyserInputs (MediaElementSource :: analyserInputs s) s);;
  addEventListener ev_timeupdate h_onTimeUpdate;;
  addEventListener ev_play h_onStateChange;;
  addEventListener ev_pause h_onStateChange;;
  addEventListener ev_ended h_onEnded;;
  setSongs stored;;
  initYouTubePlayer.

(** What [createMusicManager] finds in the browser. *)
Record Config := {
  initialContext : ContextState;   (* the state of [new AudioContext()] *)
  apiLoaded : bool;                (* the IFrame API script has already run *)
  storedSongs : list Song;         (* [storageManager.loadSongs()] *)
  rejectResume : bool;
  rejectPlay : bool
}.

Definition createMusicManager (cfg : Config) : Engine :=
  exec (init (storedSongs cfg))
    {| contextState := initialContext cfg;
       audio := {| src := ""; paused := true; volume := 1%Q; currentTime := 0%Q;
                   duration := 0%Q; listeners := [] |};
       youtubePlayer := None;
       currentSongType := audio_type;
       youtubeTimeUpdateInterval := None;
       oscillator := None;
       queue := {| songs := []; currentIndex := None |};
       analyserInputs := [];
       windowYT := apiLoaded cfg;
       apiReadyCallback := false;
       intervals := [];
       timeouts := [];
       frames := [];
       nextId := 1;
       resumeRejects := rejectResume cfg;
       playRejects := rejectPlay cfg;
       trace := [] |}.

(** ** What can happen to a running engine *)

Inductive Action :=
(* calls by the UI; [CallPlay] is a [play()] that nothing follows before its
   promise has settled, see [playThen] for one that something follows *)
| CallPlay
| CallPause
| CallSetPlaying (song : Song)
| CallDestroy
| CallSetVolume (v : Q)
| CallSetTime (t : Q)
| CallNext
(* the browser's callbacks *)
| FireTimeout (n : nat)            (* the [n]-th pending timeout runs *)
| FireInterval (id : nat)
| FireAnimationFrame
| AudioFires (e : AudioEvent)
| PlayerReports (st : PlayerState)
| PlayerBecomesReady
| ApiLoads
| BrowserPolicy (rr pr : bool).

Definition runTask (t : Task) : M unit :=
  match t with
  | DelayedPlay => detach play
  | InitPlayer => initYouTubePlayer
  end.

Definition fireTimeout (n : nat) : M unit :=
  s <- get;;
  match nth_error (timeouts s) n with
  | Some t =>
      modify (fun s => set_timeouts (removeNth n (timeouts s)) s);;
      reportErrors (runTask t)
  | None => ret tt
  end.

Definition fireInterval (id : nat) : M unit :=
  s <- get;;
  when (existsb (Nat.eqb id) (intervals s)) (reportErrors onTimeUpdate).

(** One animation frame: the callbacks requested before it run, those they
    request wait for the next one. *)
Definition fireAnimationFrame : M unit :=
  s <- get;;
  modify (set_frames []);;
  forEach (frames s) (fun f => reportErrors (updateVisualizationData (timeOffset f))).

Definition audioFires (e : AudioEvent) : M unit :=
  s <- get;;
  forEach (filter (fun l => AudioEvent_eqb (fst l) e) (listeners (audio s)))
          (fun l => reportErrors (runHandler (snd l))).

Definition playerReports (st : PlayerState) : M unit :=
  s <- get;;
  match youtubePlayer s with
  | Some _ =>
      updatePlayer (fun p =>
        {| hasApi := hasApi p; playerState := st; playerVolume := playerVolume p;
           playerTime := playerTime p; playerDuration := playerDuration p;
           destroyed := destroyed p |});;
      reportErrors (playerOnStateChange st)
  | None => ret tt
  end.

Definition playerBecomesReady : M unit :=
  updatePlayer (fun p =>
    {| hasApi := true; playerState := playerState p; playerVolume := playerVolume p;
       playerTime := playerTime p; playerDuration := playerDuration p;
       destroyed := destroyed p |});;
  s <- get;;
  when (match youtubePlayer s with Some _ => true | None => false end) (emit ConsoleLog).

Definition apiLoads : M unit :=
  modify (set_windowYT true);;
  s <- get;;
  when (apiReadyCallback s) (setTimeout InitPlayer).

Definition perform (a : Action) : M unit :=
  match a with
  | CallPlay => detach play
  | CallPause => reportErrors pause
  | CallSetPlaying song => reportErrors (setPlaying song)
  | CallDestroy => reportErrors destroy
  | CallSetVolume v => reportErrors (setVolume v)
  | CallSetTime t => reportErrors (setTime t)
  | CallNext => reportErrors queueNext
  | FireTimeout n => fireTimeout n
  | FireInterval id => fireInterval id
  | FireAnimationFrame => fireAnimationFrame
  | AudioFires e => audioFires e
  | PlayerReports st => playerReports st
  | PlayerBecomesReady => playerBecomesReady
  | ApiLoads => apiLoads
  | BrowserPolicy rr pr => modify (set_policy rr pr)
  end.

Definition step (s : Engine) (a : Action) : Engine := exec (perform a) s.

Definition run (acts : list Action) (s : Engine) : Engine := fold_left step acts s.

End Sequencer.

(** ** The synthetic frequency frame *)

Definition Math_min (a b : Q) : Q := if Qle_bool a b then a else b.
Definition Math_max (a b : Q) : Q := if Qle_bool a b then b else a.
Definition Qltb (a b : Q) : bool := negb (Qle_bool b a).

(** Storing a number in a [Uint8Array]: truncated, then taken modulo 256. *)
Definition toUint8 (x : Q) : Z := (Z.quot (Qnum x) (Zpos (Qden x))) mod 256.

Section Generator.

(** [Math.sin], and the draws of [Math.random()] within one frame, one per
    bin. *)
Variable Math_sin : Q -> Q.
Variable Math_random : nat -> Q.

(** The value of [amplitude] for bin [i] when it reaches the clamp, in a
    frame of [bufferLength] bins. *)
Definition amplitudeAt (sampleRate : Q) (bufferLength : nat) (timeOffset : Q) (i : nat) : Q :=
  (let iq := inject_Z (Z.of_nat i) in
   let frequency := (iq / inject_Z (Z.of_nat bufferLength)) * (sampleRate / 2) in
   let amplitude :=
     if Qltb frequency 200 then 120 + Math_sin (timeOffset * 2 + iq * (1 # 10)) * 60
     else if Qltb frequency 2000 then 100 + Math_sin (timeOffset * (3 # 2) + iq * (5 # 100)) * 40
     else if Qltb frequency 8000 then 80 + Math_sin (timeOffset * 3 + iq * (2 # 100)) * 30
     else 40 + Math_sin (timeOffset * 4 + iq * (1 # 100)) * 20 in
   let amplitude := amplitude + (Math_random i - (1 # 2)) * 20 in
   let beatPhase := Math_sin (timeOffset * (3 # 10)) * (1 # 2) + (1 # 2) in
   if Qltb (7 # 10) beatPhase then amplitude * (3 # 2) else amplitude)%Q.

(** The [dataArray] that one run of [updateVisualizationData] fills, for the
    closure's [timeOffset] after its increment. *)
Definition dataArray (sampleRate : Q) (bufferLength : nat) (timeOffset : Q) : list Z :=
  map (fun i => toUint8 (Math_max 0 (Math_min 255 (amplitudeAt sampleRate bufferLength timeOffset i))))
      (seq 0 bufferLength).

End Generator.

(** ** The analyser's input *)

(** Whether a node connected to the analyser can carry a signal: the media
    element's source while the element plays, a gain node unless its gain is
    zero. *)
Definition carriesSignal (s : Engine) (n : AudioNode) : bool :=
  match n with
  | MediaElementSource => negb (paused (audio s))
  | GainNode g => negb (Qeq_bool g 0)
  end.

(** The analyser has something to analyse: the frequency data it hands to
    the visualizer is computed from its inputs and from nothing else. *)
Definition analyserHasSignal (s : Engine) : bool :=
  existsb (carriesSignal s) (analyserInputs s).

(** ** Live backends *)

(** The embedded backend holds live state: its polling timer or its
    generator runs. *)
Definition youtubeLive (s : Engine) : bool :=
  match intervals s, oscillator s with
  | [], None => false
  | _, _ => true
  end.

(** The direct-media backend holds live state: the element plays. *)
Definition audioLive (s : Engine) : bool := negb (paused (audio s)).

Definition atMostOneLive (s : Engine) : bool := negb (youtubeLive s && audioLive s).

(** ** Invariants *)

(** [m] keeps [P], whether it returns or throws. *)
Definition preserves {A} (P : Engine -> Prop) (m : M A) : Prop :=
  forall s, P s -> P (snd (m s)).

(** The listeners that [init] registers. *)
Definition initListeners : list (AudioEvent * Handler) :=
  [(ev_timeupdate, h_onTimeUpdate); (ev_play, h_onStateChange);
   (ev_pause, h_onStateChange); (ev_ended, h_onEnded)].

(** Every running interval timer is the one whose id
    [youtubeTimeUpdateInterval] holds. *)
Definition intervalsTracked (s : Engine) : Prop :=
  intervals s = [] \/
  exists id, intervals s = [S id] /\ youtubeTimeUpdateInterval s = Some (S id).

(** Every gain node connected to the analyser has gain zero. *)
Definition silentNode (n : AudioNode) : bool :=
  match n with
  | MediaElementSource => true
  | GainNode g => Qeq_bool g 0
  end.

Definition gainsSilent (s : Engine) : Prop :=
  forallb silentNode (analyserInputs s) = true.

(** What holds of every state that the engine reaches from its creation. *)
Definition wf (s : Engine) : Prop :=
  intervalsTracked s /\
  nextId s <> 0 /\
  (paused (audio s) = false -> contextState s = running) /\
  match oscillator s with
  | Some o => _animationId o = None
  | None => True
  end /\
  (listeners (audio s) = initListeners \/ listeners (audio s) = []) /\
  gainsSilent s.

(** The backend that is not the active one holds no live state: the timer
    and the generator run only for a player that is active and callable, and
    the audio element is paused while ['youtube'] is the current type. *)
Definition inactiveBackendQuiet (s : Engine) : Prop :=
  intervalsTracked s /\
  (youtubeLive s = true -> youtubeReady s <> None) /\
  (currentSongType s = youtube_type -> paused (audio s) = true).

(** The song that [next()] selects in state [s] under the policy. *)
Definition nextSong (nextIndex : nat -> option nat -> option nat) (s : Engine) : option Song :=
  match nextIndex (List.length (songs (queue s))) (currentIndex (queue s)) with
  | Some k => nth_error (songs (queue s)) k
  | None => None
  end.

(** The player, if there is one, has its API methods. *)
Definition playerCallable (s : Engine) : Prop :=
  forall p, youtubePlayer s = Some p -> hasApi p = true.

(** [setPlaying(song)] reaches an unguarded call on a player object whose
    methods are not installed yet: [stopVideo()] when ['youtube'] is the
    current type, [loadVideoById] when the song is a YouTube song. *)
Definition hitsMissingMethod (s : Engine) (song : Song) : bool :=
  match youtubePlayer s with
  | Some p =>
      negb (hasApi p) &&
      (match currentSongType s with youtube_type => true | audio_type => false end
       || Url.isYouTubeUrl (url song))
  | None => false
  end.

(** ** Sample inputs *)

Definition songXYZ : Song :=
  {| name := "Video"; url := "https://youtu.be/XYZ123"; author := "User"; isCustom := true |}.

Definition songA : Song :=
  {| name := "A"; url := "a.mp3"; author := "User"; isCustom := true |}.

Definition songB : Song :=
  {| name := "B"; url := "b.mp3"; author := "User"; isCustom := true |}.

(** A browser in which the IFrame API has not loaded and audio may not start
    without a user gesture. *)
Definition cfgNoApi : Config :=
  {| initialContext := suspended; apiLoaded := false; storedSongs := [songA; songXYZ];
     rejectResume := true; rejectPlay := true |}.

(** A browser with the IFrame API loaded and no restriction on audio. *)
Definition cfgApi : Config :=
  {| initialContext := running; apiLoaded := true; storedSongs := [songA; songXYZ];
     rejectResume := false; rejectPlay := false |}.

(** The embedded backend at work: a video was chosen and started, and the
    player has reported that it plays. *)
Definition sVideoPlaying : Engine :=
  run wrapNext [PlayerBecomesReady; CallSetPlaying songXYZ; CallPlay; PlayerReports PLAYING]
      (createMusicManager cfgApi).

(** A fresh engine in a browser that lets no audio start, with a song loaded. *)
Definition sNoGesture : Engine :=
  run wrapNext [CallSetPlaying songA] (createMusicManager cfgNoApi).

(** The audio backend at work, with the embedded player ready on the side. *)
Definition sAudioPlaying : Engine :=
  run wrapNext [PlayerBecomesReady; CallSetPlaying songA; CallPlay] (createMusicManager cfgApi).

(** A browser with no restriction on audio in which the IFrame API has not
    loaded, so that no player exists. *)
Definition cfgNoPlayer : Config :=
  {| initialContext := running; apiLoaded := false; storedSongs := [songA; songXYZ];
     rejectResume := false; rejectPlay := false |}.

(** The first song of the list plays, the player is ready. *)
Definition sFirstSongPlaying : Engine :=
  run wrapNext [PlayerBecomesReady; CallNext; CallPlay] (createMusicManager cfgApi).

(** The playing video stalls: the player reports BUFFERING. *)
Definition sVideoBuffering : Engine := step wrapNext sVideoPlaying (PlayerReports BUFFERING).

(** A browser with the IFrame API loaded that allows audio and starts the
    context suspended. *)
Definition cfgSuspended : Config :=
  {| initialContext := suspended; apiLoaded := true; storedSongs := [songA; songXYZ];
     rejectResume := false; rejectPlay := false |}.


(** The engine right after creation, the player ready, a.mp3 loaded, in the
    browser that starts the context suspended. *)
Definition sSuspended : Engine :=
  run wrapNext [PlayerBecomesReady; CallSetPlaying songA] (createMusicManager cfgSuspended).

(** ** The timer widget: [MiniTimer] *)

(** The widget shows a stopwatch or a pomodoro countdown. Its numbers count
    whole seconds and sessions and are modelled as integers [Z]; on integers
    [Math.floor(a / b)] is [Z.div] and the remainder [a % b], which takes the
    sign of [a], is [Z.rem]. The count of seconds and the running flag belong
    to the parent ([timerState]); mode, phase and session are the widget's
    own state. An event handler reads the values of the render it was created
    in and queues its updates, which all take effect together; a handler
    called from an event is therefore a function from the state it read to
    the next state. [handlePomodoroComplete] is also called from the body of
    the component, during render: see [checkComplete] and [render]. *)

Module MiniTimer.
Local Open Scope Z_scope.

Inductive Mode : Type := timer | pomodoro.
Inductive Phase : Type := work | shortBreak | longBreak.

Record State : Type := {
  seconds : Z;
  isRunning : bool;
  mode : Mode;
  pomodoroPhase : Phase;
  pomodoroSession : Z
}.

Definition setSeconds (v : Z) (s : State) : State :=
  {| seconds := v; isRunning := isRunning s; mode := mode s;
     pomodoroPhase := pomodoroPhase s; pomodoroSession := pomodoroSession s |}.

Definition setIsRunning (v : bool) (s : State) : State :=
  {| seconds := seconds s; isRunning := v; mode := mode s;
     pomodoroPhase := pomodoroPhase s; pomodoroSession := pomodoroSession s |}.

Definition setMode (v : Mode) (s : State) : State :=
  {| seconds := seconds s; isRunning := isRunning s; mode := v;
     pomodoroPhase := pomodoroPhase s; pomodoroSession := pomodoroSession s |}.

Definition setPomodoroPhase (v : Phase) (s : State) : State :=
  {| seconds := seconds s; isRunning := isRunning s; mode := mode s;
     pomodoroPhase := v; pomodoroSession := pomodoroSession s |}.

(** [setPomodoroSession] takes a value or an updater [prev => ...]; the
    updater is applied to the pending value. *)
Definition setPomodoroSession (f : Z -> Z) (s : State) : State :=
  {| seconds := seconds s; isRunning := isRunning s; mode := mode s;
     pomodoroPhase := pomodoroPhase s; pomodoroSession := f (pomodoroSession s) |}.

(** The widget as it is mounted: [useState('timer')], [useState('work')],
    [useState(1)], with the parent's current count and flag. *)
Definition mount (sec : Z) (flag : bool) : State :=
  {| seconds := sec; isRunning := flag; mode := timer;
     pomodoroPhase := work; pomodoroSession := 1 |}.

Definition WORK_TIME : Z := 25 * 60.
Definition SHORT_BREAK_TIME : Z := 5 * 60.
Definition LONG_BREAK_TIME : Z := 15 * 60.

(** [n.toString()] of an integer: decimal digits, with a minus sign below
    zero. *)
Definition toString (n : Z) : string := NilZero.string_of_int (Z.to_int n).

(** [s.padStart(targetLength, c)] for a fill string of one character. *)
Definition padStart (targetLength : nat) (c : ascii) (s : string) : string :=
  string_of_list_ascii (repeat c (targetLength - String.length s)) ++ s.

Definition formatTime (totalSeconds : Z) : string :=
  let hours := totalSeconds / 3600 in
  let mins := Z.rem totalSeconds 3600 / 60 in
  let secs := Z.rem totalSeconds 60 in
  if 0 <? hours then
    toString hours ++ ":" ++ padStart 2 "0" (toString mins) ++ ":"
      ++ padStart 2 "0" (toString secs)
  else
    toString mins ++ ":" ++ padStart 2 "0" (toString secs).

Definition getTargetTime (s : State) : option Z :=
  match mode s with
  | timer => None
  | pomodoro =>
      match pomodoroPhase s with
      | work => Some WORK_TIME
      | shortBreak => Some SHORT_BREAK_TIME
      | longBreak => Some LONG_BREAK_TIME
      end
  end.

(** [if (target)]: neither [null] nor [0]. *)
Definition truthyNumber (target : option Z) : bool :=
  match target with
  | Some t => negb (t =? 0)
  | None => false
  end.

Definition getRemainingTime (s : State) : Z :=
  match getTargetTime s with
  | Some target =>
      if truthyNumber (Some target) then Z.max 0 (target - seconds s) else seconds s
  | None => seconds s
  end.

(** [getPhaseInfo]: label and colour of the phase. *)
Definition getPhaseInfo (s : State) : string * string :=
  match pomodoroPhase s with
  | work => ("Work " ++ toString (pomodoroSession s), "text-red-200")
  | shortBreak => ("Short Break", "text-green-200")
  | longBreak => ("Long Break", "text-blue-200")
  end.

Definition isPomodoro (m : Mode) : bool :=
  match m with
  | pomodoro => true
  | timer => false
  end.

Definition handleToggle (s : State) : State :=
  let s1 :=
    if isPomodoro (mode s) && negb (isRunning s) && (seconds s =? 0) then
      if truthyNumber (getTargetTime s) then setSeconds 0 s else s
    else s in
  setIsRunning (negb (isRunning s)) s1.

Definition handleReset (s : State) : State :=
  let s1 := setSeconds 0 (setIsRunning false s) in
  if isPomodoro (mode s) then
    setPomodoroSession (fun _ => 1) (setPomodoroPhase work s1)
  else s1.

Definition handlePomodoroComplete (s : State) : State :=
  let s1 := setIsRunning false s in
  let s2 :=
    match pomodoroPhase s with
    | work =>
        if pomodoroSession s =? 4 then setPomodoroPhase longBreak s1
        else setPomodoroPhase shortBreak s1
    | shortBreak =>
        setPomodoroSession (fun prev => prev + 1) (setPomodoroPhase work s1)
    | longBreak =>
        setPomodoroSession (fun _ => 1) (setPomodoroPhase work s1)
    end in
  setSeconds 0 s2.

(** Whether the check in the body of the component fires in a pass over the
    body with the state [s]: [mode === 'pomodoro' && isRunning], and then
    [target && seconds >= target]. *)
Definition checkFires (s : State) : bool :=
  isPomodoro (mode s) && isRunning s &&
  match getTargetTime s with
  | Some target => truthyNumber (Some target) && (target <=? seconds s)
  | None => false
  end.

(** One pass over the body of the component. When the check fires,
    [handlePomodoroComplete] runs during render. Its updates of the widget's
    own state (phase and session) are in force in the next pass, which React
    starts as soon as this one is over; its calls of the parent's setters
    ([setIsRunning(false)], [setSeconds(0)]) are queued for the parent, so
    the next pass sees the same count and the same flag. *)
Definition checkComplete (s : State) : State :=
  if checkFires s then
    setSeconds (seconds s) (setIsRunning (isRunning s) (handlePomodoroComplete s))
  else s.

(** The passes of one render follow one another as long as the check fires.
    React allows [limit] passes after the first (25) and then throws
    "Too many re-renders": [None]. *)
Fixpoint passes (limit : nat) (s : State) : option State :=
  if checkFires s then
    match limit with
    | O => None
    | S limit' => passes limit' (checkComplete s)
    end
  else Some s.

(** One render of the widget, with what follows from it: when the passes
    settle after the check has fired, the parent applies the queued updates,
    and the widget is rendered with the flag off and the count at 0. *)
Definition render (limit : nat) (s : State) : option State :=
  match passes limit s with
  | Some s' => Some (if checkFires s then setSeconds 0 (setIsRunning false s') else s')
  | None => None
  end.

Definition displayTime (s : State) : Z :=
  if isPomodoro (mode s) then getRemainingTime s else seconds s.

(** The text of the time display. *)
Definition display (s : State) : string := formatTime (displayTime s).

(** What the user, the parent and React can do to the widget. The skip
    button is rendered in pomodoro mode only; the parent may hand in any
    count and flag, the updates that a completion queues for it among them;
    [Render] is one pass over the body of the component. A render that does
    not settle ends the widget; [run] goes on regardless, so that what holds
    of every state [run] reaches holds of every state of the widget. *)
Inductive Action : Type :=
  | ClickTimer
  | ClickPomodoro
  | ClickToggle
  | ClickReset
  | ClickSkip
  | ParentSets (sec : Z) (flag : bool)
  | Render.

Definition perform (a : Action) (s : State) : State :=
  match a with
  | ClickTimer => setMode timer s
  | ClickPomodoro => setMode pomodoro s
  | ClickToggle => handleToggle s
  | ClickReset => handleReset s
  | ClickSkip => if isPomodoro (mode s) then handlePomodoroComplete s else s
  | ParentSets sec flag => setIsRunning flag (setSeconds sec s)
  | Render => checkComplete s
  end.

Definition run (acts : list Action) (s : State) : State :=
  fold_left (fun st a => perform a st) acts s.

(** [n] phases completed in a row. *)
Fixpoint complete (n : nat) (s : State) : State :=
  match n with
  | O => s
  | S n' => complete n' (handlePomodoroComplete s)
  end.

(** What holds of session and phase in every state the widget reaches. *)
Definition inRange (s : State) : Prop :=
  1 <= pomodoroSession s <= 4 /\
  (pomodoroPhase s = shortBreak -> pomodoroSession s <= 3) /\
  (pomodoroPhase s = longBreak -> pomodoroSession s = 4).

Definition isDigit (c : ascii) : bool :=
  let n := nat_of_ascii c in ((48 <=? n) && (n <=? 57))%nat.

Fixpoint allDigits (s : string) : bool :=
  match s with
  | String c s' => isDigit c && allDigits s'
  | EmptyString => true
  end.

(** A field of minutes or seconds as [formatTime] prints it after a colon. *)
Definition pad2 (n : Z) : string := padStart 2 "0" (toString n).

(** For a field value [n]: [pad2 n] is two digits that read as [n]. *)
Definition pad2_ok (n : nat) : bool :=
  let s := pad2 (Z.of_nat n) in
  allDigits s && (String.length s =? 2)%nat &&
  match NilZero.int_of_string s with
  | Some d => Z.of_int d =? Z.of_nat n
  | None => false
  end.

End MiniTimer.


(** ** The add-song form: [NewSong] *)

(** [String.prototype.trim] removes white space and line terminators from
    both ends. The model's strings are byte strings, read as UTF-8: the code
    points that [trim] removes are listed by their encodings, and in
    well-formed UTF-8 an encoding found at either end is that code point. *)

Module Form.

Definition bytes (l : list nat) : string := string_of_list_ascii (map ascii_of_nat l).

(** U+0009..U+000D, U+0020, U+00A0, U+1680, U+2000..U+200A, U+2028, U+2029,
    U+202F, U+205F, U+3000, U+FEFF. *)
Definition whiteSpace : list string :=
  map bytes
    [[9]; [10]; [11]; [12]; [13]; [32]; [194; 160]; [225; 154; 128];
     [226; 128; 128]; [226; 128; 129]; [226; 128; 130]; [226; 128; 131];
     [226; 128; 132]; [226; 128; 133]; [226; 128; 134]; [226; 128; 135];
     [226; 128; 136]; [226; 128; 137]; [226; 128; 138];
     [226; 128; 168]; [226; 128; 169]; [226; 128; 175]; [226; 129; 159];
     [227; 128; 128]; [239; 187; 191]].

(** The rest of [s] after the first of [pats] that [s] starts with. *)
Fixpoint stripAny (pats : list string) (s : string) : option string :=
  match pats with
  | [] => None
  | p :: pats' =>
      match Url.stripPrefix p s with
      | Some rest => Some rest
      | None => stripAny pats' s
      end
  end.

(** Strips [pats] from the start of [s] as long as one of them is there, at
    most [fuel] times. *)
Fixpoint stripAll (pats : list string) (fuel : nat) (s : string) : string :=
  match fuel with
  | O => s
  | S fuel' =>
      match stripAny pats s with
      | Some rest => stripAll pats fuel' rest
      | None => s
      end
  end.

Definition reverse (s : string) : string :=
  string_of_list_ascii (List.rev (list_ascii_of_string s)).

Definition trimStart (s : string) : string := stripAll whiteSpace (String.length s) s.

Definition trimEnd (s : string) : string :=
  reverse (stripAll (map reverse whiteSpace) (String.length s) (reverse s)).

Definition trim (s : string) : string := trimEnd (trimStart s).

(** [onSubmit] with the form's fields [name] and [url]: the song handed to
    [onAdd], or [None] when the handler returns without calling it. *)
Definition onSubmit (name url : string) : option Song :=
  if (String.length (trim name) =? 0)%nat || (String.length (trim url) =? 0)%nat then None
  else
    let processedUrl := Url.convertYouTubeUrl (trim url) in
    Some {| name := name; url := processedUrl; author := "User"; isCustom := true |}.

(** A byte that is neither an id character nor a character of the url
    pattern. *)
Definition isInert (c : ascii) : bool :=
  negb (Url.isIdChar c) &&
  negb (existsb (Ascii.eqb c) (list_ascii_of_string "./?=")).

Fixpoint allInert (s : string) : bool :=
  match s with
  | String c s' => isInert c && allInert s'
  | EmptyString => true
  end.

Definition startsInert (w : string) : bool :=
  match w with
  | String c _ => isInert c
  | EmptyString => true
  end.

Fixpoint noneInert (s : string) : bool :=
  match s with
  | String c s' => negb (isInert c) && noneInert s'
  | EmptyString => true
  end.

End Form.


(** ** Further invariants *)

(** The player exists only with the IFrame API, and always while ['youtube']
    is the current type. *)
Definition playerKnown (s : Engine) : Prop :=
  (windowYT s = false -> youtubePlayer s = None) /\
  (currentSongType s = youtube_type -> youtubePlayer s <> None).

(** The generator's gain nodes on top of the inputs [l0]. *)
Definition gainsOnTop (l0 : list AudioNode) (s : Engine) : Prop :=
  exists n, analyserInputs s = (repeat (GainNode 0%Q) n ++ l0)%list.

(** The audio element has no listener. *)
Definition unhooked (s : Engine) : Prop := listeners (audio s) = [].


(** * Properties *)

(** ** The url pattern *)

Module UrlFacts.
Import Url.

Lemma takeIdChars_all (id : string) :
  allIdChars id = true -> takeIdChars id = id.
Proof.
  induction id as [|c id IH]; simpl; [reflexivity|].
  intros H. apply andb_prop in H as [Hc Hid].
  rewrite Hc, IH by assumption. reflexivity.
Qed.

Lemma allIdChars_take (s : string) : allIdChars (takeIdChars s) = true.
Proof.
  induction s as [|c s IH]; simpl; [reflexivity|].
  destruct (isIdChar c) eqn:Hc; simpl; [now rewrite Hc|reflexivity].
Qed.

Lemma idAfter_valid (lit s id : string) :
  idAfter lit s = Some id -> validId id = true.
Proof.
  unfold idAfter. destruct (stripPrefix lit s) as [rest|]; [|discriminate].
  pose proof (allIdChars_take rest) as H.
  destruct (takeIdChars rest) as [|c t] eqn:E; [discriminate|].
  intros [= <-]. exact H.
Qed.

Lemma matchHere_valid (s id : string) :
  matchHere s = Some id -> validId id = true.
Proof.
  unfold matchHere.
  destruct (idAfter "youtube.com/watch?v=" s) eqn:E1.
  - intros [= <-]. eapply idAfter_valid; eassumption.
  - apply idAfter_valid.
Qed.

Lemma regexExec_valid (s id : string) :
  regexExec s = Some id -> validId id = true.
Proof.
  induction s as [|c s IH]; cbn [regexExec];
    destruct (matchHere _) eqn:E; try discriminate; try exact IH;
    intros [= <-]; eapply matchHere_valid; eassumption.
Qed.

Lemma takeIdChars_app (id rest : string) :
  allIdChars id = true -> endsId rest = true ->
  takeIdChars (id ++ rest) = id.
Proof.
  intros Hid Hr. induction id as [|c id IH]; cbn.
  - destruct rest as [|c r]; [reflexivity|]. cbn in Hr |- *.
    destruct (isIdChar c); [discriminate|reflexivity].
  - cbn in Hid. apply andb_prop in Hid as [Hc Hid].
    rewrite Hc, (IH Hid). reflexivity.
Qed.

(** The search through the two fixed prefixes: the first match is the one
    right after the prefix. *)
Lemma regexExec_after_long (tail id : string) :
  takeIdChars tail = id -> id <> "" ->
  regexExec ("https://www.youtube.com/watch?v=" ++ tail) = Some id.
Proof.
  intros H Hne. cbn. unfold matchHere, idAfter.
  cbn [stripPrefix Ascii.eqb Bool.eqb]. rewrite H.
  destruct id; [contradiction|reflexivity].
Qed.

Lemma regexExec_after_short (tail id : string) :
  takeIdChars tail = id -> id <> "" ->
  regexExec ("https://youtu.be/" ++ tail) = Some id.
Proof.
  intros H Hne. cbn. unfold matchHere, idAfter.
  cbn [stripPrefix Ascii.eqb Bool.eqb]. rewrite H.
  destruct id; [contradiction|reflexivity].
Qed.

Lemma validId_parts (id : string) :
  validId id = true -> allIdChars id = true /\ id <> "".
Proof. destruct id; [discriminate|]. intros H. split; [exact H|discriminate]. Qed.

Lemma regexExec_longForm (id : string) :
  validId id = true -> regexExec (longForm id) = Some id.
Proof.
  intros H. apply validId_parts in H as [Hall Hne].
  apply regexExec_after_long; [apply takeIdChars_all, Hall|exact Hne].
Qed.

Lemma regexExec_shortForm (id : string) :
  validId id = true -> regexExec (shortForm id) = Some id.
Proof.
  intros H. apply validId_parts in H as [Hall Hne].
  apply regexExec_after_short; [apply takeIdChars_all, Hall|exact Hne].
Qed.

End UrlFacts.

Lemma isYouTubeUrl_getYouTubeVideoId (u : string) :
  Url.isYouTubeUrl u =
  match Url.getYouTubeVideoId u with
  | Some _ => true
  | None => false
  end.
Proof.
  unfold Url.isYouTubeUrl, Url.getYouTubeVideoId.
  destruct (Url.regexExec u); reflexivity.
Qed.

(** ** Frame lemmas for [play] *)

Lemma play_frame (s : Engine) :
  currentSongType (snd (play s)) = currentSongType s /\
  src (audio (snd (play s))) = src (audio s).
Proof.
  destruct s as [ctx a yp cst ytui osc q ai wyt arc ivs tos frs nid rr pr tr].
  destruct a, cst, yp as [[[] ? ? ? ? ?]|], ctx, rr, pr, ytui as [[|n]|];
    cbn; split; reflexivity.
Qed.

(** [play] is its two parts with nothing in between, and a [play()] followed
    by nothing is a [play()] whose promise is dropped. *)
Lemma play_in_two_parts (s : Engine) :
  play s = (awaiting <- playUntilAwait;; when awaiting playAfterAwait) s.
Proof.
  destruct s as [ctx a yp cst ytui osc q ai wyt arc ivs tos frs nid rr pr tr].
  destruct a, cst, yp as [[[] ? ? ? ? ?]|], ctx, rr, pr, ytui as [[|n]|];
    reflexivity.
Qed.

Lemma playThen_nothing (s : Engine) :
  exec (playThen (ret tt)) s = exec (detach play) s.
Proof.
  destruct s as [ctx a yp cst ytui osc q ai wyt arc ivs tos frs nid rr pr tr].
  destruct a, cst, yp as [[[] ? ? ? ? ?]|], ctx, rr, pr, ytui as [[|n]|];
    reflexivity.
Qed.

(** ** Classification of urls *)

(** C7. Classification depends on the url alone. When the pattern matches,
    the url is a YouTube url, the captured id is a non-empty run of id
    characters, the long form and the short form built from that id both give
    the id back, and [convertYouTubeUrl] yields the long form, which is again
    a YouTube url with the same id. When the pattern does not match, the url
    is no YouTube url, [convertYouTubeUrl] leaves it alone, and loading a song
    with that url returns normally with the audio backend selected and the
    url as the element's source. For every well-formed id the two input forms
    of the video are YouTube urls with that id. *)
Theorem url_classification (u id' : string) (song : Song) (wasPlaying : bool) (s : Engine) :
  match Url.getYouTubeVideoId u with
  | Some id =>
      Url.isYouTubeUrl u = true /\
      Url.validId id = true /\
      Url.getYouTubeVideoId (Url.longForm id) = Some id /\
      Url.getYouTubeVideoId (Url.shortForm id) = Some id /\
      Url.convertYouTubeUrl u = Url.longForm id /\
      Url.isYouTubeUrl (Url.convertYouTubeUrl u) = true /\
      Url.getYouTubeVideoId (Url.convertYouTubeUrl u) = Some id
  | None =>
      Url.isYouTubeUrl u = false /\
      Url.convertYouTubeUrl u = u /\
      (url song = u ->
       fst (loadSong wasPlaying song s) = Normal tt /\
       currentSongType (exec (loadSong wasPlaying song) s) = audio_type /\
       src (audio (exec (loadSong wasPlaying song) s)) = u)
  end /\
  (Url.validId id' = true ->
   Url.getYouTubeVideoId (Url.longForm id') = Some id' /\
   Url.getYouTubeVideoId (Url.shortForm id') = Some id' /\
   Url.isYouTubeUrl (Url.longForm id') = true /\
   Url.isYouTubeUrl (Url.shortForm id') = true).
Proof.
  assert (both : forall i, Url.validId i = true ->
            Url.getYouTubeVideoId (Url.longForm i) = Some i /\
            Url.getYouTubeVideoId (Url.shortForm i) = Some i /\
            Url.isYouTubeUrl (Url.longForm i) = true /\
            Url.isYouTubeUrl (Url.shortForm i) = true).
  { intros i Hi. unfold Url.getYouTubeVideoId, Url.isYouTubeUrl.
    rewrite (UrlFacts.regexExec_longForm i Hi), (UrlFacts.regexExec_shortForm i Hi).
    repeat split. }
  split; [|apply both].
  unfold Url.getYouTubeVideoId, Url.isYouTubeUrl, Url.convertYouTubeUrl.
  destruct (Url.regexExec u) as [id|] eqn:E.
  - pose proof (UrlFacts.regexExec_valid u id E) as Hv.
    destruct (both id Hv) as (Hl & Hs & Hil & His).
    unfold Url.getYouTubeVideoId, Url.isYouTubeUrl in *.
    fold (Url.longForm id).
    repeat split; try assumption.
  - split; [reflexivity|]. split; [reflexivity|].
    clear both. intros Hu. unfold loadSong, Url.isYouTubeUrl, exec.
    rewrite Hu, E. destruct s, wasPlaying; cbn; [|repeat split].
    unfold detach, tryCatch.
    match goal with |- context [play ?st] =>
      pose proof (play_frame st) as (Hk & Hsrc); destruct (play st) as [[[]|e] s']
    end; cbn in Hk, Hsrc |- *; repeat split; assumption.
Qed.

Lemma url_classification_witness :
  (Url.isYouTubeUrl "a.mp3" = false /\
   Url.convertYouTubeUrl "a.mp3" = "a.mp3" /\
   fst (loadSong true songA (createMusicManager cfgApi)) = Normal tt /\
   currentSongType (exec (loadSong true songA) (createMusicManager cfgApi)) = audio_type /\
   src (audio (exec (loadSong true songA) (createMusicManager cfgApi))) = "a.mp3") /\
  Url.getYouTubeVideoId "https://www.youtube.com/watch?v=XYZ123" = Some "XYZ123" /\
  Url.getYouTubeVideoId "https://youtu.be/XYZ123" = Some "XYZ123".
Proof.
  pose proof (url_classification "a.mp3" "XYZ123" songA true (createMusicManager cfgApi))
    as [(H1 & H2 & H3) H4].
  destruct (H3 eq_refl) as (H5 & H6 & H7).
  destruct (H4 eq_refl) as (H8 & H9 & _).
  repeat split; assumption.
Defined.

(** ** A YouTube song before the player exists *)

(** C10. When [youtubePlayer] is still [null] and the song's url is a YouTube
    url, [setPlaying] returns normally and does nothing but pause the audio
    element: the backend kind, the element's source, the timers and the
    pending timeouts are as before, and nothing is asked of any player. *)
Theorem setPlaying_without_player (s : Engine) (song : Song) :
  youtubePlayer s = None ->
  Url.isYouTubeUrl (url song) = true ->
  exists s',
    setPlaying song s = (Normal tt, s') /\
    s' = set_audio (set_paused true (audio s)) (set_trace (AudioPause :: trace s) s) /\
    currentSongType s' = currentSongType s /\
    youtubePlayer s' = None /\
    src (audio s') = src (audio s) /\
    paused (audio s') = true /\
    timeouts s' = timeouts s /\
    intervals s' = intervals s.
Proof.
  intros Hp Hu.
  exists (set_audio (set_paused true (audio s)) (set_trace (AudioPause :: trace s) s)).
  split.
  - unfold setPlaying, stopCurrentPlayback, loadSong. rewrite Hu.
    destruct s as [ctx a yp cst ytui osc q ai wyt arc ivs tos frs nid rr pr tr].
    cbn in Hp. subst yp.
    destruct (Url.getYouTubeVideoId (url song)); destruct cst; cbn; reflexivity.
  - cbn. repeat split. assumption.
Qed.

Lemma setPlaying_without_player_witness :
  exists s',
    setPlaying songXYZ (createMusicManager cfgNoApi) = (Normal tt, s') /\
    s' = set_audio (set_paused true (audio (createMusicManager cfgNoApi)))
           (set_trace (AudioPause :: trace (createMusicManager cfgNoApi))
              (createMusicManager cfgNoApi)) /\
    currentSongType s' = currentSongType (createMusicManager cfgNoApi) /\
    youtubePlayer s' = None /\
    src (audio s') = src (audio (createMusicManager cfgNoApi)) /\
    paused (audio s') = true /\
    timeouts s' = timeouts (createMusicManager cfgNoApi) /\
    intervals s' = intervals (createMusicManager cfgNoApi).
Proof.
  apply (setPlaying_without_player (createMusicManager cfgNoApi) songXYZ); reflexivity.
Defined.

(** ** Volume *)



(** ** The invariant of reachable states *)

Lemma preserves_ret {A} P (a : A) : preserves P (ret a).
Proof. intros s H. exact H. Qed.

Lemma preserves_bind {A B} P (m : M A) (k : A -> M B) :
  preserves P m -> (forall a, preserves P (k a)) -> preserves P (bind m k).
Proof.
  intros Hm Hk s H. unfold bind. specialize (Hm s H).
  destruct (m s) as [[a|e] s']; cbn in *; [apply Hk|]; assumption.
Qed.

Lemma preserves_tryCatch {A} P (m : M A) (h : Error -> M A) :
  preserves P m -> (forall e, preserves P (h e)) -> preserves P (tryCatch m h).
Proof.
  intros Hm Hh s H. unfold tryCatch. specialize (Hm s H).
  destruct (m s) as [[a|e] s']; cbn in *; [|apply Hh]; assumption.
Qed.

Lemma preserves_when P (b : bool) (m : M unit) :
  preserves P m -> preserves P (when b m).
Proof. destruct b; [trivial|intros _; apply preserves_ret]. Qed.

Lemma preserves_get P : preserves P get.
Proof. intros s H. exact H. Qed.

Lemma preserves_forEach {A} P (l : list A) (f : A -> M unit) :
  (forall x, preserves P (f x)) -> preserves P (forEach l f).
Proof.
  intros Hf. induction l as [|x l IH]; cbn [forEach].
  - apply preserves_ret.
  - apply preserves_bind; [apply Hf|intros _; exact IH].
Qed.

Ltac run_engine :=
  cbv beta iota zeta delta
    [bind ret throw tryCatch get modify when exec emit detach
     addEventListener removeEventListener setInterval clearInterval setTimeout
     requestAnimationFrame cancelAnimationFrame audioPause audioPlay contextResume
     callPlayer updatePlayer updateOscillator oscillatorStop youtubeReady onStateChange
     onTimeUpdate stopYouTubeVisualization updateVisualizationData
     startYouTubeVisualization setTime isPaused setVolume play pause stopCurrentPlayback
     loadSong setPlaying destroy initYouTubePlayer reportErrors playerBecomesReady
     apiLoads playUntilAwait playAfterAwait playThen
     contextState audio youtubePlayer currentSongType youtubeTimeUpdateInterval
     oscillator queue analyserInputs windowYT apiReadyCallback intervals timeouts
     frames nextId resumeRejects playRejects trace
     src paused volume currentTime duration listeners
     hasApi playerState playerVolume playerTime playerDuration destroyed
     started connected _animationId frameId timeOffset songs currentIndex
     set_contextState set_audio set_youtubePlayer set_currentSongType
     set_youtubeTimeUpdateInterval set_oscillator set_queue set_analyserInputs
     set_windowYT set_apiReadyCallback set_intervals set_timeouts set_frames
     set_nextId set_trace set_policy set_paused set_src set_volume set_currentTime
     set_listeners
     fst snd option_map truthy filter app negb andb orb PlayerState_eqb existsb
     sameListener AudioEvent_eqb Handler_eqb
     youtubeLive audioLive atMostOneLive].

Ltac open_wf :=
  let Hiv := fresh "Hiv" in let Hn := fresh "Hn" in
  let Hp := fresh "Hp" in let Ho := fresh "Ho" in
  let Hl := fresh "Hl" in let Hg := fresh "Hg" in
  intros [? [? ? ? ? ? ?] ? ? ? ? ? ? ? ? ivs ? ? nid ? ? ?] (Hiv & Hn & Hp & Ho & Hl & Hg);
  unfold intervalsTracked in Hiv; unfold gainsSilent in Hg; cbn in Hiv, Hn, Hp, Ho, Hl, Hg;
  destruct Hiv as [Hiv | (id & Hiv & Hst)]; subst;
  (destruct nid as [|nid]; [exfalso; apply Hn; reflexivity|]).

Ltac close_wf :=
  unfold wf, intervalsTracked, gainsSilent; run_engine;
  repeat split; try assumption; try discriminate; try congruence;
  try (left; reflexivity); try (right; eexists; split; reflexivity);
  try (intros; exfalso; congruence); try exact I; try (cbn; assumption).

Ltac break_goal :=
  match goal with
  | |- context [match ?x with _ => _ end] => is_var x; destruct x
  | |- context [if ?x then _ else _] => is_var x; destruct x
  | |- context [Url.isYouTubeUrl ?u] => destruct (Url.isYouTubeUrl u)
  | |- context [Url.getYouTubeVideoId ?u] => destruct (Url.getYouTubeVideoId u)
  | |- context [String.eqb ?a ?b] => destruct (String.eqb a b)
  | |- context [Qle_bool ?a ?b] => destruct (Qle_bool a b)
  end.

Ltac wf_leaf :=
  open_wf; unfold wf, intervalsTracked, gainsSilent;
  repeat first [ progress run_engine | rewrite Nat.eqb_refl | break_goal ];
  close_wf.

Lemma wf_play : preserves wf play.
Proof. wf_leaf. Qed.

Lemma wf_pause : preserves wf pause.
Proof. wf_leaf. Qed.

Lemma wf_emit e : preserves wf (emit e).
Proof. wf_leaf. Qed.

Lemma wf_stopYouTubeVisualization : preserves wf stopYouTubeVisualization.
Proof. wf_leaf. Qed.

Lemma wf_startYouTubeVisualization : preserves wf startYouTubeVisualization.
Proof. wf_leaf. Qed.

Lemma wf_updateVisualizationData t : preserves wf (updateVisualizationData t).
Proof. wf_leaf. Qed.

Lemma wf_stopCurrentPlayback : preserves wf stopCurrentPlayback.
Proof. wf_leaf. Qed.

Lemma wf_destroy : preserves wf destroy.
Proof.
  open_wf; unfold wf, intervalsTracked, gainsSilent;
    match goal with H : _ \/ _ |- _ => destruct H; subst end;
    repeat first [ progress run_engine | rewrite Nat.eqb_refl | break_goal ];
    close_wf; try (right; reflexivity).
Qed.

Lemma wf_onTimeUpdate : preserves wf onTimeUpdate.
Proof. wf_leaf. Qed.

Lemma wf_setVolume v : preserves wf (setVolume v).
Proof. wf_leaf. Qed.

Lemma wf_setTime t : preserves wf (setTime t).
Proof. wf_leaf. Qed.

Lemma wf_initYouTubePlayer : preserves wf initYouTubePlayer.
Proof. wf_leaf. Qed.

Lemma wf_playerBecomesReady : preserves wf playerBecomesReady.
Proof. wf_leaf. Qed.

Lemma wf_apiLoads : preserves wf apiLoads.
Proof. wf_leaf. Qed.

Lemma wf_loadSong w song : preserves wf (loadSong w song).
Proof. wf_leaf. Qed.

Lemma wf_setPlaying song : preserves wf (setPlaying song).
Proof.
  unfold setPlaying.
  apply preserves_bind; [apply preserves_get|intros s0; cbv zeta].
  apply preserves_bind; [apply wf_stopCurrentPlayback|intros _; apply wf_loadSong].
Qed.

Lemma wf_detach m : preserves wf m -> preserves wf (detach m).
Proof. intros H. apply preserves_tryCatch; [exact H|intros e; apply wf_emit]. Qed.

Lemma wf_reportErrors m : preserves wf m -> preserves wf (reportErrors m).
Proof. intros H. apply preserves_tryCatch; [exact H|intros e; apply wf_emit]. Qed.

Lemma wf_set_queue q : preserves wf (modify (set_queue q)).
Proof. wf_leaf. Qed.

Lemma wf_set_frames f : preserves wf (modify (set_frames f)).
Proof. wf_leaf. Qed.

Lemma wf_set_timeouts f : preserves wf (modify (fun s => set_timeouts (f s) s)).
Proof. wf_leaf. Qed.

Lemma wf_set_policy rr pr : preserves wf (modify (set_policy rr pr)).
Proof. wf_leaf. Qed.

Lemma wf_set_playerState st :
  preserves wf (updatePlayer (fun p =>
    {| hasApi := hasApi p; playerState := st; playerVolume := playerVolume p;
       playerTime := playerTime p; playerDuration := playerDuration p;
       destroyed := destroyed p |})).
Proof. wf_leaf. Qed.

Section SequencerFacts.

Variable nextIndex : nat -> option nat -> option nat.

Lemma wf_onUpdate song : preserves wf (onUpdate song).
Proof.
  unfold onUpdate.
  apply preserves_bind; [destruct song; [apply wf_setPlaying|apply preserves_ret]|intros _].
  apply preserves_bind; [apply wf_emit|intros _; apply wf_emit].
Qed.

Lemma wf_queueNext : preserves wf (queueNext nextIndex).
Proof.
  unfold queueNext.
  apply preserves_bind; [apply preserves_get|intros s0; cbv zeta].
  apply preserves_bind; [apply wf_set_queue|intros _; apply wf_onUpdate].
Qed.

Lemma wf_onEnded : preserves wf (onEnded nextIndex).
Proof.
  unfold onEnded.
  apply preserves_bind; [apply wf_queueNext|intros _; apply wf_detach, wf_play].
Qed.

Lemma wf_playerOnStateChange st : preserves wf (playerOnStateChange nextIndex st).
Proof.
  destruct st; cbn [playerOnStateChange]; try apply preserves_ret.
  - apply wf_onEnded.
  - apply preserves_bind; [apply wf_startYouTubeVisualization|intros _; apply wf_emit].
  - apply preserves_bind; [apply wf_stopYouTubeVisualization|intros _; apply wf_emit].
Qed.

Lemma wf_runHandler h : preserves wf (runHandler nextIndex h).
Proof.
  destruct h; cbn [runHandler].
  - apply wf_onTimeUpdate.
  - apply wf_emit.
  - apply wf_onEnded.
Qed.

Lemma wf_perform a : preserves wf (perform nextIndex a).
Proof.
  destruct a; cbn [perform].
  - apply wf_detach, wf_play.
  - apply wf_reportErrors, wf_pause.
  - apply wf_reportErrors, wf_setPlaying.
  - apply wf_reportErrors, wf_destroy.
  - apply wf_reportErrors, wf_setVolume.
  - apply wf_reportErrors, wf_setTime.
  - apply wf_reportErrors, wf_queueNext.
  - unfold fireTimeout.
    apply preserves_bind; [apply preserves_get|intros s0].
    destruct (nth_error (timeouts s0) n) as [[]|]; [| |apply preserves_ret];
      (apply preserves_bind; [apply wf_set_timeouts|intros _; apply wf_reportErrors]).
    + apply wf_detach, wf_play.
    + apply wf_initYouTubePlayer.
  - unfold fireInterval.
    apply preserves_bind; [apply preserves_get|intros s0].
    apply preserves_when, wf_reportErrors, wf_onTimeUpdate.
  - unfold fireAnimationFrame.
    apply preserves_bind; [apply preserves_get|intros s0].
    apply preserves_bind; [apply wf_set_frames|intros _].
    apply preserves_forEach. intros f. apply wf_reportErrors, wf_updateVisualizationData.
  - unfold audioFires.
    apply preserves_bind; [apply preserves_get|intros s0].
    apply preserves_forEach. intros l. apply wf_reportErrors, wf_runHandler.
  - unfold playerReports.
    apply preserves_bind; [apply preserves_get|intros s0].
    destruct (youtubePlayer s0); [|apply preserves_ret].
    apply preserves_bind; [apply wf_set_playerState|intros _].
    apply wf_reportErrors, wf_playerOnStateChange.
  - apply wf_playerBecomesReady.
  - apply wf_apiLoads.
  - apply wf_set_policy.
Qed.

Lemma wf_run acts s : wf s -> wf (run nextIndex acts s).
Proof.
  revert s. induction acts as [|a acts IH]; intros s H; cbn [run fold_left].
  - exact H.
  - apply IH. apply wf_perform. exact H.
Qed.

End SequencerFacts.

Lemma wf_createMusicManager (cfg : Config) : wf (createMusicManager cfg).
Proof.
  destruct cfg as [ctx [] st rr pr]; unfold wf, intervalsTracked, gainsSilent; vm_compute;
    repeat split; try (left; reflexivity); try discriminate.
Qed.

(** ** Rejected playback *)

Lemma play_throw_inv (s s' : Engine) (e : Error) :
  wf s ->
  play s = (Throw e, s') ->
  e = NotAllowedError /\
  youtubeReady s = None /\
  ((contextState s = suspended /\ resumeRejects s = true) \/ playRejects s = true) /\
  audio s' = audio s /\
  youtubePlayer s' = youtubePlayer s /\
  currentSongType s' = currentSongType s /\
  intervals s' = intervals s /\
  oscillator s' = oscillator s /\
  (isPaused s = true -> isPaused s' = true).
Proof.
  intros (_ & _ & Hp & _ & _).
  destruct s as [ctx [sr pa vo ct du ls] yp cst ytui osc q ai wyt arc ivs tos frs nid rr pr tr].
  cbn in Hp.
  unfold play. run_engine.
  destruct cst, yp as [[[] ? ? ? ? ?]|], ctx, rr, pr; try destruct ytui as [[|n]|];
    run_engine; intros [= <- <-]; run_engine;
    repeat split; auto.
  all: try (intros _; destruct pa; [reflexivity|]; specialize (Hp eq_refl); discriminate).
Qed.

(** C4, as amended. In every state the engine reaches, a [play()] whose
    promise is rejected was rejected by the browser ([context.resume()] or
    [audio.play()], with the audio backend in charge); nothing in the engine
    catches the rejection, so a caller that drops the promise leaves it
    unhandled; the audio element is untouched, and [isPaused()] is still true
    if it was true before the call. *)
Theorem play_rejection_leaves_engine_paused
    (nextIndex : nat -> option nat -> option nat)
    (cfg : Config) (acts : list Action) (e : Error) (s' : Engine) :
  play (run nextIndex acts (createMusicManager cfg)) = (Throw e, s') ->
  e = NotAllowedError /\
  youtubeReady (run nextIndex acts (createMusicManager cfg)) = None /\
  ((contextState (run nextIndex acts (createMusicManager cfg)) = suspended /\
    resumeRejects (run nextIndex acts (createMusicManager cfg)) = true) \/
   playRejects (run nextIndex acts (createMusicManager cfg)) = true) /\
  audio s' = audio (run nextIndex acts (createMusicManager cfg)) /\
  (isPaused (run nextIndex acts (createMusicManager cfg)) = true -> isPaused s' = true) /\
  trace (exec (detach play) (run nextIndex acts (createMusicManager cfg))) = Uncaught e :: trace s'.
Proof.
  intros H.
  pose proof (play_throw_inv _ _ _ (wf_run nextIndex acts _ (wf_createMusicManager cfg)) H)
    as (He & Hy & Hr & Ha & _ & _ & _ & _ & Hpz).
  repeat split; try assumption.
  unfold exec, detach, tryCatch. rewrite H. reflexivity.
Qed.

Lemma play_rejection_leaves_engine_paused_witness :
  NotAllowedError = NotAllowedError /\
  youtubeReady (sNoGesture) = None /\
  ((contextState (sNoGesture) = suspended /\
    resumeRejects (sNoGesture) = true) \/
   playRejects (sNoGesture) = true) /\
  audio (set_trace (ContextResume :: trace (sNoGesture))
           (sNoGesture)) =
    audio (sNoGesture) /\
  (isPaused (sNoGesture) = true ->
   isPaused (set_trace (ContextResume :: trace (sNoGesture))
           (sNoGesture)) = true) /\
  trace (exec (detach play) (sNoGesture)) =
    Uncaught NotAllowedError ::
      trace (set_trace (ContextResume :: trace (sNoGesture))
           (sNoGesture)).
Proof.
  apply (play_rejection_leaves_engine_paused wrapNext cfgNoApi [CallSetPlaying songA]
           NotAllowedError (set_trace (ContextResume :: trace sNoGesture) sNoGesture)).
  vm_compute. reflexivity.
Defined.

(** C4 fails as stated: in a browser that rejects [context.resume()], the
    promise of [play()] is rejected and the rejection reaches the caller; a
    caller that drops the promise leaves it unhandled. *)
Lemma play_rejection_reaches_caller :
  fst (play (createMusicManager cfgNoApi)) = Throw NotAllowedError /\
  trace (step wrapNext (createMusicManager cfgNoApi) CallPlay) =
    [Uncaught NotAllowedError; ContextResume].
Proof. split; vm_compute; reflexivity. Qed.

(** ** One live backend *)










Lemma quiet_createMusicManager (cfg : Config) : inactiveBackendQuiet (createMusicManager cfg).
Proof.
  destruct cfg as [ctx [] st rr pr]; unfold inactiveBackendQuiet, intervalsTracked; vm_compute;
    repeat split; try (left; reflexivity); discriminate.
Qed.






(** ** [isPaused] *)

(** C9, as amended. [isPaused()] is true for a freshly created engine. With
    the audio element in charge it is true after [pause()]. With the embedded
    player active and callable it is the state that the player last reported
    that counts: [isPaused()] is true exactly when that state is not PLAYING,
    for UNSTARTED, ENDED, PAUSED, BUFFERING and CUED alike; [pause()] itself
    does not change the answer, which becomes true once the player reports
    PAUSED, or UNSTARTED, BUFFERING or CUED. *)
Theorem isPaused_follows_reported_state
    (nextIndex : nat -> option nat -> option nat) (cfg : Config) (s : Engine) (p : Player)
    (st : PlayerState) :
  isPaused (createMusicManager cfg) = true /\
  (youtubeReady s = None -> isPaused (exec pause s) = true) /\
  (youtubeReady s = Some p ->
   isPaused s = match playerState p with PLAYING => false | _ => true end /\
   isPaused (exec pause s) = isPaused s /\
   (st <> PLAYING -> st <> ENDED ->
    isPaused (exec (playerReports nextIndex st) s) = true)).
Proof.
  split; [|split].
  - destruct cfg as [[] [] sg rr pr]; reflexivity.
  - destruct s as [ctx a yp cst ytui osc q ai wyt arc ivs tos frs nid rr pr tr].
    intros H. unfold pause, isPaused, exec, bind, get. cbn -[youtubeReady]. rewrite H.
    unfold youtubeReady in *. cbn in *.
    destruct cst, yp as [[[] ps pv pt pd de]|], ctx; cbn; try reflexivity; try discriminate.
  - intros Hp. split; [|split].
    + unfold isPaused. rewrite Hp. destruct (playerState p); reflexivity.
    + destruct s as [ctx a yp cst ytui osc q ai wyt arc ivs tos frs nid rr pr tr].
      revert Hp. unfold youtubeReady. cbn.
      destruct cst, yp as [[[] ps pv pt pd de]|]; try discriminate. intros _.
      repeat first [ progress run_engine | break_goal ]; reflexivity.
    + intros H1 H2.
      destruct s as [ctx a yp cst ytui osc q ai wyt arc ivs tos frs nid rr pr tr].
      revert Hp. unfold youtubeReady. cbn.
      destruct cst, yp as [[[] ps pv pt pd de]|]; try discriminate. intros _.
      unfold playerReports, playerOnStateChange.
      destruct st; try (exfalso; apply H1; reflexivity); try (exfalso; apply H2; reflexivity);
        repeat first [ progress run_engine | break_goal ]; reflexivity.
Qed.

Lemma isPaused_follows_reported_state_witness :
  youtubeReady sVideoBuffering <> None /\
  isPaused sVideoPlaying = false /\
  isPaused sVideoBuffering = true /\
  isPaused (exec pause sVideoPlaying) = isPaused sVideoPlaying /\
  isPaused (exec (playerReports wrapNext PAUSED) (exec pause sVideoPlaying)) = true.
Proof.
  assert (E1 : youtubeReady sVideoBuffering
               = Some {| hasApi := true; playerState := BUFFERING; playerVolume := 100%Q;
                         playerTime := 0%Q; playerDuration := 0%Q; destroyed := false |})
    by (vm_compute; reflexivity).
  assert (E2 : youtubeReady sVideoPlaying
               = Some {| hasApi := true; playerState := PLAYING; playerVolume := 100%Q;
                         playerTime := 0%Q; playerDuration := 0%Q; destroyed := false |})
    by (vm_compute; reflexivity).
  assert (E3 : youtubeReady (exec pause sVideoPlaying)
               = Some {| hasApi := true; playerState := PLAYING; playerVolume := 100%Q;
                         playerTime := 0%Q; playerDuration := 0%Q; destroyed := false |})
    by (vm_compute; reflexivity).
  destruct (isPaused_follows_reported_state wrapNext cfgApi sVideoBuffering
              {| hasApi := true; playerState := BUFFERING; playerVolume := 100%Q;
                playerTime := 0%Q; playerDuration := 0%Q; destroyed := false |} PAUSED)
    as (_ & _ & H3).
  destruct (H3 E1) as (Hb & _).
  destruct (isPaused_follows_reported_state wrapNext cfgApi sVideoPlaying
              {| hasApi := true; playerState := PLAYING; playerVolume := 100%Q;
                playerTime := 0%Q; playerDuration := 0%Q; destroyed := false |} PAUSED)
    as (_ & _ & H4).
  destruct (H4 E2) as (Hp & Hq & _).
  destruct (isPaused_follows_reported_state wrapNext cfgApi (exec pause sVideoPlaying)
              {| hasApi := true; playerState := PLAYING; playerVolume := 100%Q;
                playerTime := 0%Q; playerDuration := 0%Q; destroyed := false |} PAUSED)
    as (_ & _ & H5).
  destruct (H5 E3) as (_ & _ & Hr).
  split; [rewrite E1; discriminate|].
  split; [exact Hp|]. split; [exact Hb|]. split; [exact Hq|].
  apply Hr; discriminate.
Defined.

(** C9 fails as stated: with the embedded player playing a video, [pause()]
    returns normally and issues [pauseVideo()], and [isPaused()] still
    returns false, the player not having reported the change. *)
Lemma isPaused_false_right_after_pause :
  youtubeReady sVideoPlaying <> None /\
  isPaused sVideoPlaying = false /\
  fst (pause sVideoPlaying) = Normal tt /\
  hd_error (trace (exec pause sVideoPlaying)) = Some PauseVideo /\
  isPaused (exec pause sVideoPlaying) = false.
Proof. vm_compute. repeat split; discriminate. Qed.
(** ** Teardown *)

Lemma destroy_spec (s : Engine) :
  wf s ->
  exists s1,
    destroy s = (Normal tt, s1) /\
    trace s1 =
      (match youtubePlayer s with Some _ => [DestroyPlayer] | None => [] end ++
       match youtubeReady s with Some _ => PauseVideo | None => AudioPause end :: trace s)%list /\
    (youtubeReady s = None -> paused (audio s1) = true) /\
    listeners (audio s1) = [] /\
    intervals s1 = [] /\
    oscillator s1 = None /\
    match youtubePlayer s with
    | Some _ => exists p, youtubePlayer s1 = Some p /\ destroyed p = true
    | None => youtubePlayer s1 = None
    end /\
    frames s1 = frames s /\
    timeouts s1 = timeouts s.
Proof.
  revert s. open_wf;
    match goal with H : _ \/ _ |- _ => destruct H; subst end;
    repeat first [ progress run_engine | rewrite Nat.eqb_refl | break_goal ];
    (eexists; split; [reflexivity|]); run_engine;
    repeat split; try reflexivity; try (eexists; split; reflexivity);
    try discriminate.
Qed.

Lemma forEach_noop {A} (l : list A) (f : A -> M unit) (s : Engine) :
  (forall x, f x s = (Normal tt, s)) -> forEach l f s = (Normal tt, s).
Proof.
  intros H. induction l as [|x l IH]; cbn [forEach]; [reflexivity|].
  unfold bind. rewrite H. exact IH.
Qed.

Lemma fireAnimationFrame_stopped (s : Engine) :
  oscillator s = None ->
  fireAnimationFrame s = (Normal tt, set_frames [] s).
Proof.
  intros H. unfold fireAnimationFrame, bind, get, modify.
  apply forEach_noop. intros f.
  unfold reportErrors, tryCatch, updateVisualizationData, bind, get. cbn.
  rewrite H. reflexivity.
Qed.

Lemma playThen_destroy_spec (s : Engine) :
  wf s -> youtubeReady s = None -> contextState s = suspended ->
  resumeRejects s = false -> playRejects s = false ->
  exists s', playThen destroy s = (Normal tt, s') /\
    paused (audio s') = false /\
    listeners (audio s') = [] /\
    timeouts s' = timeouts s /\
    trace s' =
      (AudioPlay ::
       match youtubePlayer s with Some _ => [DestroyPlayer] | None => [] end ++
       AudioPause :: ContextResume :: trace s)%list.
Proof.
  revert s. open_wf; intros Hy Hc Hrr Hpr; cbn in Hy, Hc, Hrr, Hpr; subst;
    match goal with H : _ \/ _ |- _ => destruct H; subst end;
    repeat first [ progress run_engine | rewrite Nat.eqb_refl | break_goal ];
    try discriminate Hy;
    (eexists; split; [reflexivity|]); run_engine; repeat split; reflexivity.
Qed.

(** C3, as amended. In every state the engine reaches, [destroy()] returns
    normally. It issues the pause command of the backend in charge
    ([pauseVideo()], or [audio.pause()], after which the element is paused)
    and then [destroy()] on the player if there is one; afterwards the audio
    element has no listener left, no interval timer runs, and the oscillator
    is gone. What is pending stays pending: the timeouts are as they were, so
    that no delayed [play()] is cancelled, and a [play()] that waits for
    [context.resume()] when [destroy()] is called goes on afterwards and
    starts the audio element. A second [destroy()] returns normally as well:
    it repeats the pause command and the player's [destroy()], which are
    taken not to throw on a destroyed player, and leaves listeners,
    intervals, oscillator and timeouts as the first one left them. *)
Theorem destroy_stops_backend_and_unhooks
    (nextIndex : nat -> option nat -> option nat) (cfg : Config) (acts : list Action) :
  let s := run nextIndex acts (createMusicManager cfg) in
  exists s1 s2,
    destroy s = (Normal tt, s1) /\
    destroy s1 = (Normal tt, s2) /\
    trace s1 =
      (match youtubePlayer s with Some _ => [DestroyPlayer] | None => [] end ++
       match youtubeReady s with Some _ => PauseVideo | None => AudioPause end
       :: trace s)%list /\
    (youtubeReady s = None -> paused (audio s1) = true) /\
    listeners (audio s1) = [] /\
    intervals s1 = [] /\
    oscillator s1 = None /\
    match youtubePlayer s with
    | Some _ => exists p, youtubePlayer s1 = Some p /\ destroyed p = true
    | None => youtubePlayer s1 = None
    end /\
    timeouts s1 = timeouts s /\
    (youtubeReady s = None -> contextState s = suspended ->
     resumeRejects s = false -> playRejects s = false ->
     exists s', playThen destroy s = (Normal tt, s') /\
       paused (audio s') = false /\
       listeners (audio s') = [] /\
       timeouts s' = timeouts s /\
       trace s' =
         (AudioPlay ::
          match youtubePlayer s with Some _ => [DestroyPlayer] | None => [] end ++
          AudioPause :: ContextResume :: trace s)%list) /\
    trace s2 =
      (match youtubePlayer s1 with Some _ => [DestroyPlayer] | None => [] end ++
       match youtubeReady s1 with Some _ => PauseVideo | None => AudioPause end
       :: trace s1)%list /\
    listeners (audio s2) = [] /\ intervals s2 = [] /\ oscillator s2 = None /\
    timeouts s2 = timeouts s1.
Proof.
  intros s.
  pose proof (wf_run nextIndex acts _ (wf_createMusicManager cfg)) as Hwf. fold s in Hwf.
  clearbody s.
  destruct (destroy_spec _ Hwf) as (s1 & H1 & Ht & Hp & Hl & Hi & Ho & Hd & _ & Hto).
  assert (Hwf1 : wf s1).
  { pose proof (wf_destroy _ Hwf) as H. rewrite H1 in H. exact H. }
  destruct (destroy_spec _ Hwf1) as (s2 & H2 & Ht2 & _ & Hl2 & Hi2 & Ho2 & _ & _ & Hto2).
  exists s1, s2.
  split; [exact H1|]. split; [exact H2|]. split; [exact Ht|]. split; [exact Hp|].
  split; [exact Hl|]. split; [exact Hi|]. split; [exact Ho|]. split; [exact Hd|].
  split; [exact Hto|].
  split; [apply playThen_destroy_spec, Hwf|].
  repeat split; assumption.
Qed.

(** C3 fails as stated. [setPlaying] of a video while a video plays leaves a
    delayed [play()] behind; after [destroy()] that timeout is still pending,
    and so is the generator's frame callback; when the timeout fires,
    [playVideo()] is issued and a polling interval runs that nothing is left
    to clear. And a [play()] that waits for [context.resume()] when
    [destroy()] is called goes on afterwards: the audio element plays, with
    no listener on it. *)
Lemma destroy_leaves_delayed_play_pending :
  (timeouts (run wrapNext [CallSetPlaying songXYZ; CallDestroy] sVideoPlaying) = [DelayedPlay] /\
   frames (run wrapNext [CallSetPlaying songXYZ; CallDestroy] sVideoPlaying) <> [] /\
   intervals (run wrapNext [CallSetPlaying songXYZ; CallDestroy] sVideoPlaying) = [] /\
   intervals (run wrapNext [CallSetPlaying songXYZ; CallDestroy; FireTimeout 0] sVideoPlaying)
   <> [] /\
   hd_error (trace (run wrapNext [CallSetPlaying songXYZ; CallDestroy; FireTimeout 0]
                      sVideoPlaying)) = Some PlayVideo) /\
  (isPaused sSuspended = true /\
   listeners (audio (exec (playThen destroy) sSuspended)) = [] /\
   paused (audio (exec (playThen destroy) sSuspended)) = false /\
   trace (exec (playThen destroy) sSuspended)
   = AudioPlay :: DestroyPlayer :: AudioPause :: ContextResume :: trace sSuspended).
Proof. vm_compute. repeat split; discriminate. Qed.

(** ** The delayed resume *)

Lemma setPlaying_schedules_play (s : Engine) (song : Song) (p : Player) :
  youtubePlayer s = Some p -> hasApi p = true ->
  Url.isYouTubeUrl (url song) = true -> isPaused s = false ->
  exists id s',
    Url.getYouTubeVideoId (url song) = Some id /\
    setPlaying song s = (Normal tt, s') /\
    timeouts s' = (timeouts s ++ [DelayedPlay])%list /\
    currentSongType s' = youtube_type /\
    trace s' = LoadVideoById id :: trace (exec stopCurrentPlayback s).
Proof.
  intros Hp Ha Hu Hpz.
  pose proof (isYouTubeUrl_getYouTubeVideoId (url song)) as Hid. rewrite Hu in Hid.
  destruct (Url.getYouTubeVideoId (url song)) as [id|] eqn:E; [|discriminate].
  assert (Hne : (id =? "") = false).
  { unfold Url.getYouTubeVideoId in E.
    destruct (Url.regexExec (url song)) as [i|] eqn:E'; [|discriminate].
    injection E as <-. apply UrlFacts.regexExec_valid in E'.
    destruct i; [discriminate|reflexivity]. }
  exists id. unfold setPlaying, bind, get. cbv beta zeta. rewrite Hpz.
  unfold loadSong. rewrite Hu, E.
  destruct s as [? [? ? ? ? ? ?] yp cst ytui osc ? ? ? ? ivs ? ? ? ? ? ?].
  cbn in Hp. subst yp. destruct p as [api ? ? ? ? ?]. cbn in Ha. subst api.
  clear Hpz.
  destruct cst;
    repeat first [ progress run_engine | rewrite Hne | break_goal ];
    eexists; repeat split; reflexivity.
Qed.

Lemma setPlaying_keeps_timeouts (s : Engine) (song : Song) :
  timeouts (exec (setPlaying song) s) = timeouts s \/
  timeouts (exec (setPlaying song) s) = (timeouts s ++ [DelayedPlay])%list.
Proof.
  destruct s as [? [? ? ? ? ? ?] yp cst ytui osc ? ? ? ? ivs ? ? ? ? ? ?].
  repeat first [ progress run_engine | break_goal ];
    first [ left; reflexivity | right; reflexivity ].
Qed.

Lemma destroy_keeps_timeouts (s : Engine) :
  timeouts (exec destroy s) = timeouts s.
Proof.
  destruct s as [? [? ? ? ? ? ?] yp cst ytui osc ? ? ? ? ivs ? ? ? ? ? ?].
  repeat first [ progress run_engine | break_goal ]; reflexivity.
Qed.

(** C2, as amended. [setPlaying] of a YouTube song, called while playback is
    in progress and the player is callable, loads the video and puts one
    delayed [play()] in the timeout queue. Nothing ever takes a timeout out of
    the queue but its firing: [setPlaying] leaves the pending timeouts in
    place (adding at most its own), [destroy] leaves them all, and a delayed
    play that fires runs [play()] on whatever backend is in charge then. *)
Theorem delayed_resume_is_never_cancelled
    (s : Engine) (song : Song) (p : Player) (n : nat) :
  (youtubePlayer s = Some p -> hasApi p = true ->
   Url.isYouTubeUrl (url song) = true -> isPaused s = false ->
   exists id s',
     Url.getYouTubeVideoId (url song) = Some id /\
     setPlaying song s = (Normal tt, s') /\
     timeouts s' = (timeouts s ++ [DelayedPlay])%list /\
     currentSongType s' = youtube_type /\
     trace s' = LoadVideoById id :: trace (exec stopCurrentPlayback s)) /\
  (timeouts (exec (setPlaying song) s) = timeouts s \/
   timeouts (exec (setPlaying song) s) = (timeouts s ++ [DelayedPlay])%list) /\
  timeouts (exec destroy s) = timeouts s /\
  (nth_error (timeouts s) n = Some DelayedPlay ->
   fireTimeout n s =
     reportErrors (detach play) (set_timeouts (removeNth n (timeouts s)) s)).
Proof.
  split; [apply setPlaying_schedules_play|].
  split; [apply setPlaying_keeps_timeouts|].
  split; [apply destroy_keeps_timeouts|].
  intros H. unfold fireTimeout, bind, get, modify. rewrite H. reflexivity.
Qed.

Lemma delayed_resume_is_never_cancelled_witness :
  youtubePlayer sAudioPlaying <> None /\
  Url.isYouTubeUrl (url songXYZ) = true /\
  isPaused sAudioPlaying = false /\
  (exists id s',
     Url.getYouTubeVideoId (url songXYZ) = Some id /\
     setPlaying songXYZ sAudioPlaying = (Normal tt, s') /\
     timeouts s' = (timeouts sAudioPlaying ++ [DelayedPlay])%list /\
     currentSongType s' = youtube_type /\
     trace s' = LoadVideoById id :: trace (exec stopCurrentPlayback sAudioPlaying)) /\
  fireTimeout 0 (exec (setPlaying songXYZ) sAudioPlaying) =
    reportErrors (detach play)
      (set_timeouts (removeNth 0 (timeouts (exec (setPlaying songXYZ) sAudioPlaying)))
         (exec (setPlaying songXYZ) sAudioPlaying)).
Proof.
  destruct (delayed_resume_is_never_cancelled sAudioPlaying songXYZ
              {| hasApi := true; playerState := UNSTARTED; playerVolume := 100%Q;
                 playerTime := 0%Q; playerDuration := 0%Q; destroyed := false |} 0)
    as (H1 & _ & _ & _).
  destruct (delayed_resume_is_never_cancelled (exec (setPlaying songXYZ) sAudioPlaying) songXYZ
              {| hasApi := true; playerState := UNSTARTED; playerVolume := 100%Q;
                 playerTime := 0%Q; playerDuration := 0%Q; destroyed := false |} 0)
    as (_ & _ & _ & H4).
  split; [vm_compute; discriminate|].
  split; [reflexivity|]. split; [reflexivity|].
  split; [apply H1; reflexivity|apply H4; reflexivity].
Defined.

(** C2 fails as stated: a delayed resume scheduled by [setPlaying] is still
    pending after a second [setPlaying] and starts the song that the second
    call had loaded paused; it is still pending after [destroy()] and then
    starts the destroyed player and a new polling timer. *)
Lemma delayed_resume_outlives_switch_and_destroy :
  (timeouts (run wrapNext [CallSetPlaying songXYZ; CallSetPlaying songB] sAudioPlaying)
     = [DelayedPlay] /\
   src (audio (run wrapNext [CallSetPlaying songXYZ; CallSetPlaying songB] sAudioPlaying))
     = "b.mp3" /\
   isPaused (run wrapNext [CallSetPlaying songXYZ; CallSetPlaying songB] sAudioPlaying)
     = true /\
   isPaused (run wrapNext [CallSetPlaying songXYZ; CallSetPlaying songB; FireTimeout 0]
               sAudioPlaying) = false) /\
  (timeouts (run wrapNext [CallSetPlaying songXYZ; CallDestroy] sAudioPlaying)
     = [DelayedPlay] /\
   intervals (run wrapNext [CallSetPlaying songXYZ; CallDestroy] sAudioPlaying) = [] /\
   intervals (run wrapNext [CallSetPlaying songXYZ; CallDestroy; FireTimeout 0] sAudioPlaying)
     = [1] /\
   hd_error (trace (run wrapNext [CallSetPlaying songXYZ; CallDestroy; FireTimeout 0]
                      sAudioPlaying)) = Some PlayVideo).
Proof. vm_compute. repeat split. Qed.

(** ** The synthetic generator *)

Lemma clamp_range (a : Q) :
  (0 <= Math_max 0 (Math_min 255 a))%Q /\ (Math_max 0 (Math_min 255 a) <= 255)%Q.
Proof.
  unfold Math_max, Math_min.
  destruct (Qle_bool 255 a) eqn:E1.
  - destruct (Qle_bool 0 255) eqn:E2; split; try apply Qle_refl; try discriminate.
  - destruct (Qle_bool 0 a) eqn:E2.
    + apply Qle_bool_iff in E2. split; [exact E2|].
      apply Qnot_lt_le. intros H. apply Qlt_le_weak in H.
      apply Qle_bool_iff in H. congruence.
    + split; [apply Qle_refl|discriminate].
Qed.

Lemma toUint8_in_range (x : Q) :
  (0 <= x)%Q -> (x <= 255)%Q ->
  toUint8 x = Qfloor x /\ (0 <= toUint8 x <= 255)%Z.
Proof.
  intros H0 H1.
  assert (Hf0 : (0 <= Qfloor x)%Z).
  { change 0%Z with (Qfloor 0). apply Qfloor_resp_le, H0. }
  assert (Hf1 : (Qfloor x <= 255)%Z).
  { change 255%Z with (Qfloor 255). apply Qfloor_resp_le, H1. }
  assert (Hq : Z.quot (Qnum x) (Zpos (Qden x)) = Qfloor x).
  { destruct x as [n d]. cbn [Qnum Qden Qfloor].
    apply Z.quot_div_nonneg; [|reflexivity].
    unfold Qle in H0. cbn in H0. lia. }
  unfold toUint8. rewrite Hq.
  rewrite Z.mod_small by lia. split; [reflexivity|lia].
Qed.

Section GeneratorFacts.

Variable Math_sin : Q -> Q.
Variable Math_random : nat -> Q.

Lemma dataArray_bytes (sampleRate : Q) (bufferLength : nat) (t : Q) :
  List.length (dataArray Math_sin Math_random sampleRate bufferLength t) = bufferLength /\
  Forall (fun b => (0 <= b <= 255)%Z) (dataArray Math_sin Math_random sampleRate bufferLength t).
Proof.
  unfold dataArray. split.
  - rewrite length_map, length_seq. reflexivity.
  - apply Forall_map, Forall_forall. intros i _.
    destruct (clamp_range (amplitudeAt Math_sin Math_random sampleRate bufferLength t i))
      as [H0 H1].
    apply (toUint8_in_range _ H0 H1).
Qed.

End GeneratorFacts.

Lemma silent_inputs_no_signal (s : Engine) :
  gainsSilent s -> analyserHasSignal s && paused (audio s) = false.
Proof.
  unfold gainsSilent, analyserHasSignal.
  destruct (paused (audio s)) eqn:Hp; [|intros _; apply andb_false_r].
  rewrite andb_true_r.
  induction (analyserInputs s) as [|n l IH]; cbn; [reflexivity|].
  intros H. apply andb_prop in H as [Hn Hl].
  rewrite (IH Hl), orb_false_r.
  destruct n as [|g]; cbn in *; [rewrite Hp; reflexivity|].
  rewrite Hn. reflexivity.
Qed.

(** C5 fails at its last step. Every frame that a tick builds is a frame of
    [bufferLength] bytes, each within 0..255. But in every state the engine
    reaches, the analyser has a signal only while the audio element plays: the
    generator's gain nodes are silent and the frame itself is dropped, and the
    oscillator's [_animationId] is never set, so [cancelAnimationFrame] never
    runs. At the failing input, a playing video followed by one animation
    frame, the generator runs and the analyser has no signal; a second PLAYING
    report leaves two frame loops running. *)
Theorem synthetic_frame_never_reaches_analyser
    (nextIndex : nat -> option nat -> option nat)
    (Math_sin : Q -> Q) (Math_random : nat -> Q)
    (sampleRate : Q) (bufferLength : nat) (t : Q)
    (cfg : Config) (acts : list Action) :
  List.length (dataArray Math_sin Math_random sampleRate bufferLength t) = bufferLength /\
  Forall (fun b => (0 <= b <= 255)%Z)
         (dataArray Math_sin Math_random sampleRate bufferLength t) /\
  analyserHasSignal (run nextIndex acts (createMusicManager cfg))
    && paused (audio (run nextIndex acts (createMusicManager cfg))) = false /\
  match oscillator (run nextIndex acts (createMusicManager cfg)) with
  | Some o => _animationId o = None
  | None => True
  end /\
  youtubeReady sVideoPlaying <> None /\
  isPaused sVideoPlaying = false /\
  oscillator (run wrapNext [FireAnimationFrame] sVideoPlaying) <> None /\
  analyserInputs (run wrapNext [FireAnimationFrame] sVideoPlaying)
    = [GainNode 0; MediaElementSource] /\
  analyserHasSignal (run wrapNext [FireAnimationFrame] sVideoPlaying) = false /\
  List.length (frames (run wrapNext [FireAnimationFrame] sVideoPlaying)) = 1 /\
  List.length (frames (run wrapNext [PlayerReports PLAYING; FireAnimationFrame]
                         sVideoPlaying)) = 2.
Proof.
  pose proof (wf_run nextIndex acts _ (wf_createMusicManager cfg))
    as (_ & _ & _ & Ho & _ & Hg).
  destruct (dataArray_bytes Math_sin Math_random sampleRate bufferLength t) as [Hlen Hall].
  split; [exact Hlen|]. split; [exact Hall|].
  split; [apply silent_inputs_no_signal, Hg|]. split; [exact Ho|].
  vm_compute. repeat split; discriminate.
Qed.

(** ** End of track *)

Section EndedFacts.

Variable nextIndex : nat -> option nat -> option nat.

Lemma audioFires_ended (s : Engine) :
  listeners (audio s) = initListeners ->
  audioFires nextIndex ev_ended s = (reportErrors (onEnded nextIndex);; ret tt) s.
Proof.
  intros H. unfold audioFires, bind at 1, get. rewrite H. reflexivity.
Qed.

Lemma onEnded_unfold (s : Engine) :
  onEnded nextIndex s =
  ((modify (set_queue {| songs := songs (queue s);
                        currentIndex := nextIndex (List.length (songs (queue s)))
                                                  (currentIndex (queue s)) |});;
    onUpdate (nextSong nextIndex s));;
   detach play) s.
Proof. reflexivity. Qed.

Lemma queueNext_unfold (s : Engine) :
  queueNext nextIndex s =
  (modify (set_queue {| songs := songs (queue s);
                        currentIndex := nextIndex (List.length (songs (queue s)))
                                                  (currentIndex (queue s)) |});;
   onUpdate (nextSong nextIndex s)) s.
Proof. reflexivity. Qed.

(** C6, as amended. The audio element's "ended" event and the player's ENDED
    report both run [onEnded], which advances the sequencer by its policy and
    then, unless the advance throws, calls [play()]. The advance throws a
    [TypeError], and [play()] is not called, when the player object is there
    without its methods and ['youtube'] is the current type or the song
    selected is a YouTube song. Otherwise [onEnded] returns normally, and in
    a browser that lets audio start: if the song selected is a direct-media
    song, it becomes the element's source and the element plays it; if it is
    a YouTube song and the player exists, the video is loaded, [playVideo()]
    is the last command issued and the polling timer runs; if it is a
    YouTube song and no player exists, nothing is loaded and the element
    plays the source it already had. *)
Theorem ended_advances_and_plays (s : Engine) (song : Song) :
  nextSong nextIndex s = Some song ->
  (listeners (audio s) = initListeners ->
   audioFires nextIndex ev_ended s = (reportErrors (onEnded nextIndex);; ret tt) s) /\
  (youtubePlayer s <> None ->
   exec (playerReports nextIndex ENDED) s =
   exec (reportErrors (onEnded nextIndex))
     (exec (updatePlayer (fun p =>
        {| hasApi := hasApi p; playerState := ENDED; playerVolume := playerVolume p;
           playerTime := playerTime p; playerDuration := playerDuration p;
           destroyed := destroyed p |})) s)) /\
  currentIndex (queue (exec (onEnded nextIndex) s)) =
    nextIndex (List.length (songs (queue s))) (currentIndex (queue s)) /\
  songs (queue (exec (onEnded nextIndex) s)) = songs (queue s) /\
  if hitsMissingMethod s song then
    fst (onEnded nextIndex s) = Throw TypeError /\
    trace (exec (onEnded nextIndex) s) =
      match currentSongType s with
      | youtube_type => trace s
      | audio_type => AudioPause :: trace s
      end /\
    intervals (exec (onEnded nextIndex) s) = intervals s /\
    contextState (exec (onEnded nextIndex) s) = contextState s
  else
    fst (queueNext nextIndex s) = Normal tt /\
    onEnded nextIndex s = detach play (exec (queueNext nextIndex) s) /\
    fst (onEnded nextIndex s) = Normal tt /\
    (resumeRejects s = false -> playRejects s = false ->
     match Url.getYouTubeVideoId (url song), youtubePlayer s with
     | Some id, Some _ =>
         currentSongType (exec (onEnded nextIndex) s) = youtube_type /\
         intervals (exec (onEnded nextIndex) s) <> [] /\
         exists t,
           trace (exec (onEnded nextIndex) s) =
             PlayVideo :: NotifyTimeUpdate 0 0 :: NotifyNext (Some song) :: LoadVideoById id :: t
     | Some _, None =>
         currentSongType (exec (onEnded nextIndex) s) = currentSongType s /\
         src (audio (exec (onEnded nextIndex) s)) = src (audio s) /\
         paused (audio (exec (onEnded nextIndex) s)) = false /\
         hd_error (trace (exec (onEnded nextIndex) s)) = Some AudioPlay
     | None, _ =>
         currentSongType (exec (onEnded nextIndex) s) = audio_type /\
         src (audio (exec (onEnded nextIndex) s)) = url song /\
         paused (audio (exec (onEnded nextIndex) s)) = false /\
         hd_error (trace (exec (onEnded nextIndex) s)) = Some AudioPlay
     end).
Proof.
  intros Hn.
  split; [apply audioFires_ended|].
  split.
  { intros Hy. unfold playerReports, exec, bind at 1, get.
    destruct (youtubePlayer s); [|contradiction]. unfold bind.
    destruct (updatePlayer _ s) as [[[]|e] s1] eqn:E; [reflexivity|].
    unfold updatePlayer, modify in E. discriminate. }
  unfold exec. rewrite queueNext_unfold, onEnded_unfold, Hn.
  pose proof (isYouTubeUrl_getYouTubeVideoId (url song)) as Hu.
  assert (Hne : forall id, Url.getYouTubeVideoId (url song) = Some id -> (id =? "") = false).
  { intros id E. unfold Url.getYouTubeVideoId in E.
    destruct (Url.regexExec (url song)) as [i|] eqn:E'; [|discriminate].
    injection E as <-. apply UrlFacts.regexExec_valid in E'.
    destruct i; [discriminate|reflexivity]. }
  unfold hitsMissingMethod, onUpdate, setPlaying, loadSong. rewrite Hu. clear Hu Hn.
  destruct s as [ctx [? pa ? ? ? ?] yp cst ytui osc ? ? ? ? ivs ? ? nid rr pr ?].
  destruct (Url.getYouTubeVideoId (url song)) as [id|];
    [specialize (Hne id eq_refl)|clear Hne];
    destruct yp as [[[] ? ? ? ? ?]|], cst;
    repeat first [ progress run_engine | rewrite Hne | rewrite Nat.eqb_refl | break_goal ];
    repeat split; try reflexivity; try discriminate;
    try (intros; subst; repeat split; try reflexivity; try (eexists; reflexivity);
         try (intros Habs; apply app_eq_nil in Habs; destruct Habs as [_ Habs];
              discriminate Habs)).
Qed.

End EndedFacts.

Lemma ended_advances_and_plays_witness :
  (nextSong wrapNext sFirstSongPlaying = Some songXYZ /\
   hitsMissingMethod sFirstSongPlaying songXYZ = false /\
   fst (onEnded wrapNext sFirstSongPlaying) = Normal tt /\
   currentSongType (exec (onEnded wrapNext) sFirstSongPlaying) = youtube_type /\
   intervals (exec (onEnded wrapNext) sFirstSongPlaying) <> [] /\
   exists t,
     trace (exec (onEnded wrapNext) sFirstSongPlaying) =
       PlayVideo :: NotifyTimeUpdate 0 0 :: NotifyNext (Some songXYZ)
         :: LoadVideoById "XYZ123" :: t) /\
  (nextSong wrapNext (run wrapNext [CallNext; CallPlay] (createMusicManager cfgApi))
   = Some songXYZ /\
   hitsMissingMethod (run wrapNext [CallNext; CallPlay] (createMusicManager cfgApi)) songXYZ
   = true /\
   fst (onEnded wrapNext (run wrapNext [CallNext; CallPlay] (createMusicManager cfgApi)))
   = Throw TypeError /\
   currentIndex (queue (exec (onEnded wrapNext)
                          (run wrapNext [CallNext; CallPlay] (createMusicManager cfgApi))))
   = Some (1 mod 2)).
Proof.
  assert (Hn : nextSong wrapNext sFirstSongPlaying = Some songXYZ) by reflexivity.
  assert (Hm : hitsMissingMethod sFirstSongPlaying songXYZ = false) by (vm_compute; reflexivity).
  pose proof (ended_advances_and_plays wrapNext sFirstSongPlaying songXYZ Hn)
    as (_ & _ & _ & _ & H).
  rewrite Hm in H. destruct H as (_ & _ & Hf & H).
  assert (Hn' : nextSong wrapNext (run wrapNext [CallNext; CallPlay] (createMusicManager cfgApi))
                = Some songXYZ) by (vm_compute; reflexivity).
  assert (Hm' : hitsMissingMethod (run wrapNext [CallNext; CallPlay] (createMusicManager cfgApi))
                  songXYZ = true) by (vm_compute; reflexivity).
  pose proof (ended_advances_and_plays wrapNext _ songXYZ Hn') as (_ & _ & Hi & _ & H').
  rewrite Hm' in H'. destruct H' as (Ht & _).
  split.
  - split; [exact Hn|]. split; [exact Hm|]. split; [exact Hf|].
    exact (H eq_refl eq_refl).
  - split; [exact Hn'|]. split; [exact Hm'|]. split; [exact Ht|]. exact Hi.
Defined.

(** C6 fails as stated: with no player, the song after [songA] is the YouTube
    song; when [songA] ends the sequencer advances to it, nothing is loaded,
    and [play()] restarts a.mp3. *)
Lemma ended_without_player_replays_previous_source :
  currentIndex (queue (run wrapNext [CallNext; CallPlay; AudioFires ev_ended]
                         (createMusicManager cfgNoPlayer))) = Some 1 /\
  nth_error (songs (queue (run wrapNext [CallNext; CallPlay; AudioFires ev_ended]
                             (createMusicManager cfgNoPlayer)))) 1 = Some songXYZ /\
  Url.isYouTubeUrl (url songXYZ) = true /\
  currentSongType (run wrapNext [CallNext; CallPlay; AudioFires ev_ended]
                     (createMusicManager cfgNoPlayer)) = audio_type /\
  src (audio (run wrapNext [CallNext; CallPlay; AudioFires ev_ended]
                (createMusicManager cfgNoPlayer))) = "a.mp3" /\
  paused (audio (run wrapNext [CallNext; CallPlay; AudioFires ev_ended]
                   (createMusicManager cfgNoPlayer))) = false /\
  trace (run wrapNext [CallNext; CallPlay; AudioFires ev_ended]
           (createMusicManager cfgNoPlayer)) =
    [AudioPlay; NotifyTimeUpdate 0 0; NotifyNext (Some songXYZ); AudioPause;
     AudioPlay; NotifyTimeUpdate 0 0; NotifyNext (Some songA); AudioSrc "a.mp3"; AudioPause].
Proof. vm_compute. repeat split. Qed.

(** ** Further properties *)

(** X1. In every state the engine reaches at most one polling interval runs,
    and it is the one whose id [youtubeTimeUpdateInterval] holds. *)
Theorem single_polling_timer
    (nextIndex : nat -> option nat -> option nat) (cfg : Config) (acts : list Action) :
  (List.length (intervals (run nextIndex acts (createMusicManager cfg))) <= 1)%nat /\
  forall id, In id (intervals (run nextIndex acts (createMusicManager cfg))) ->
             youtubeTimeUpdateInterval (run nextIndex acts (createMusicManager cfg)) = Some id.
Proof.
  pose proof (wf_run nextIndex acts _ (wf_createMusicManager cfg)) as (Hiv & _).
  destruct Hiv as [Hiv | (id & Hiv & Hst)]; rewrite Hiv.
  - split; [cbn; lia|intros id []].
  - split; [cbn; lia|]. intros i [<-|[]]. exact Hst.
Qed.

Lemma pause_spec (s : Engine) :
  wf s ->
  match youtubeReady s with
  | Some _ =>
      exists s', pause s = (Normal tt, s') /\
        trace s' = PauseVideo :: trace s /\
        intervals s' = [] /\
        oscillator s' = None /\
        truthy (youtubeTimeUpdateInterval s') = false
  | None =>
      exists s', pause s = (Normal tt, s') /\
        trace s' = AudioPause :: trace s /\
        paused (audio s') = true
  end.
Proof.
  revert s. open_wf;
    repeat first [ progress run_engine | rewrite Nat.eqb_refl | break_goal ];
    eexists; repeat split; reflexivity.
Qed.

(** X2. In every state the engine reaches, [pause()] returns normally. With
    the embedded player active and callable it issues [pauseVideo()], drops
    the oscillator, clears the polling interval and forgets its id; otherwise
    it pauses the audio element. *)
Theorem pause_stops_polling_and_generator
    (nextIndex : nat -> option nat -> option nat) (cfg : Config) (acts : list Action) :
  match youtubeReady (run nextIndex acts (createMusicManager cfg)) with
  | Some _ =>
      exists s', pause (run nextIndex acts (createMusicManager cfg)) = (Normal tt, s') /\
        trace s' = PauseVideo :: trace (run nextIndex acts (createMusicManager cfg)) /\
        intervals s' = [] /\
        oscillator s' = None /\
        truthy (youtubeTimeUpdateInterval s') = false
  | None =>
      exists s', pause (run nextIndex acts (createMusicManager cfg)) = (Normal tt, s') /\
        trace s' = AudioPause :: trace (run nextIndex acts (createMusicManager cfg)) /\
        paused (audio s') = true
  end.
Proof. apply pause_spec, wf_run, wf_createMusicManager. Qed.

(** X3. When [setPlaying] is given a YouTube url while the player object
    exists without its API methods, the unguarded [loadVideoById] call throws
    a [TypeError] after [currentSongType] has become ['youtube']; from then on
    every [setPlaying] throws at the unguarded [stopVideo()] and changes
    nothing, as long as the methods are missing. *)
Theorem setPlaying_before_player_ready (s : Engine) (song song' : Song) (p : Player) :
  youtubePlayer s = Some p -> hasApi p = false ->
  currentSongType s = audio_type ->
  Url.isYouTubeUrl (url song) = true ->
  exists s',
    setPlaying song s = (Throw TypeError, s') /\
    currentSongType s' = youtube_type /\
    trace s' = AudioPause :: trace s /\
    youtubeReady s' = None /\
    setPlaying song' s' = (Throw TypeError, s').
Proof.
  intros Hp Ha Hc Hu.
  pose proof (isYouTubeUrl_getYouTubeVideoId (url song)) as Hid. rewrite Hu in Hid.
  destruct (Url.getYouTubeVideoId (url song)) as [id|] eqn:E; [|discriminate].
  assert (Hne : (id =? "") = false).
  { unfold Url.getYouTubeVideoId in E.
    destruct (Url.regexExec (url song)) as [i|] eqn:E'; [|discriminate].
    injection E as <-. apply UrlFacts.regexExec_valid in E'.
    destruct i; [discriminate|reflexivity]. }
  unfold setPlaying, bind at 1, get. cbv beta zeta.
  unfold loadSong. rewrite Hu, E.
  destruct s as [? [? ? ? ? ? ?] yp cst ytui osc ? ? ? ? ivs ? ? ? ? ? ?].
  cbn in Hp, Hc. subst yp cst. destruct p as [api ? ? ? ? ?]. cbn in Ha. subst api.
  repeat first [ progress run_engine | rewrite Hne | break_goal ];
    eexists; (split; [reflexivity|]); repeat split; reflexivity.
Qed.

Lemma setPlaying_before_player_ready_witness :
  youtubePlayer (createMusicManager cfgApi) <> None /\
  exists s',
    setPlaying songXYZ (createMusicManager cfgApi) = (Throw TypeError, s') /\
    currentSongType s' = youtube_type /\
    trace s' = AudioPause :: trace (createMusicManager cfgApi) /\
    youtubeReady s' = None /\
    setPlaying songA s' = (Throw TypeError, s').
Proof.
  split; [vm_compute; discriminate|].
  apply (setPlaying_before_player_ready (createMusicManager cfgApi) songXYZ songA
           {| hasApi := false; playerState := UNSTARTED; playerVolume := 100%Q;
              playerTime := 0%Q; playerDuration := 0%Q; destroyed := false |});
    reflexivity.
Defined.

(** X4. A url made of one of the two prefixes, a well-formed id, and a rest
    that is empty or starts outside the id characters (a further query
    parameter, say) yields that id, and [convertYouTubeUrl] reduces it to the
    long form of the id alone. *)
Theorem video_id_stops_at_delimiter (id rest : string) :
  Url.validId id = true -> Url.endsId rest = true ->
  Url.getYouTubeVideoId (Url.longForm id ++ rest) = Some id /\
  Url.getYouTubeVideoId (Url.shortForm id ++ rest) = Some id /\
  Url.convertYouTubeUrl (Url.longForm id ++ rest) = Url.longForm id /\
  Url.convertYouTubeUrl (Url.shortForm id ++ rest) = Url.longForm id.
Proof.
  intros Hv Hr.
  assert (Hne : id <> "") by (destruct id; [discriminate|discriminate]).
  assert (Hall : Url.allIdChars id = true) by (destruct id; [discriminate|exact Hv]).
  pose proof (UrlFacts.takeIdChars_app id rest Hall Hr) as Ht.
  change (Url.longForm id ++ rest) with ("https://www.youtube.com/watch?v=" ++ (id ++ rest)).
  change (Url.shortForm id ++ rest) with ("https://youtu.be/" ++ (id ++ rest)).
  unfold Url.getYouTubeVideoId, Url.convertYouTubeUrl.
  rewrite (UrlFacts.regexExec_after_long _ _ Ht Hne), (UrlFacts.regexExec_after_short _ _ Ht Hne).
  repeat split.
Qed.

Lemma video_id_stops_at_delimiter_witness :
  Url.getYouTubeVideoId "https://www.youtube.com/watch?v=XYZ123&t=10s" = Some "XYZ123" /\
  Url.getYouTubeVideoId "https://youtu.be/XYZ123?t=10" = Some "XYZ123" /\
  Url.convertYouTubeUrl "https://youtu.be/XYZ123?t=10" = "https://www.youtube.com/watch?v=XYZ123".
Proof.
  destruct (video_id_stops_at_delimiter "XYZ123" "&t=10s" eq_refl eq_refl) as (H1 & _).
  destruct (video_id_stops_at_delimiter "XYZ123" "?t=10" eq_refl eq_refl) as (_ & H2 & _ & H4).
  repeat split; assumption.
Defined.

(** ** The timer widget *)

Module MiniTimerFacts.
Import MiniTimer.
Local Open Scope Z_scope.

Lemma inRange_complete (s : State) : inRange s -> inRange (handlePomodoroComplete s).
Proof.
  destruct s as [sec r m p n]. unfold inRange, handlePomodoroComplete. cbn.
  intros (H1 & H2 & H3).
  destruct p; cbn.
  - destruct (Z.eqb_spec n 4); cbn; repeat split; try lia; try discriminate; intros _; lia.
  - specialize (H2 eq_refl). repeat split; try lia; discriminate.
  - repeat split; try lia; discriminate.
Qed.

Lemma inRange_perform (a : Action) (s : State) : inRange s -> inRange (perform a s).
Proof.
  intros H. destruct a; cbn [perform]; try exact H.
  - unfold handleToggle. destruct s as [sec r m p n]. cbn.
    destruct (isPomodoro m && negb r && (sec =? 0)); [destruct (truthyNumber _)|]; exact H.
  - unfold handleReset. destruct s as [sec r m p n]. cbn.
    destruct m; cbn; [exact H|]. unfold inRange; cbn. repeat split; try lia; discriminate.
  - destruct (isPomodoro (mode s)); [apply inRange_complete|]; exact H.
  - unfold checkComplete. destruct (checkFires s); [|exact H].
    apply inRange_complete in H. exact H.
Qed.

Lemma inRange_run (acts : list Action) (s : State) : inRange s -> inRange (run acts s).
Proof.
  revert s. induction acts as [|a acts IH]; intros s H; [exact H|].
  cbn. apply IH, inRange_perform, H.
Qed.

Lemma inRange_mount sec r : inRange (mount sec r).
Proof. unfold inRange; cbn. repeat split; try lia; discriminate. Qed.

End MiniTimerFacts.

Module FormatFacts.
Import MiniTimer.
Local Open Scope Z_scope.

Lemma allDigits_uint (d : uint) : allDigits (NilEmpty.string_of_uint d) = true.
Proof. induction d; cbn; auto. Qed.

Lemma allDigits_toString (n : Z) : 0 <= n -> allDigits (toString n) = true.
Proof.
  intros H. unfold toString. destruct n as [|p|p]; [reflexivity| |lia].
  cbn. unfold NilZero.string_of_uint.
  destruct (Pos.to_uint p) eqn:E; try apply (allDigits_uint (_ u)).
  reflexivity.
Qed.

Lemma toString_inj (a b : Z) : toString a = toString b -> a = b.
Proof.
  unfold toString. intros H.
  apply DecimalZ.to_int_inj.
  assert (nn : forall z, Z.to_int z <> Pos Nil /\ Z.to_int z <> Neg Nil).
  { intros [|p|p]; cbn; split; try discriminate;
      intros [= E]; exact (Unsigned.to_uint_nonnil p E). }
  pose proof (NilZero.isi _ (proj1 (nn a)) (proj2 (nn a))) as Ha.
  pose proof (NilZero.isi _ (proj1 (nn b)) (proj2 (nn b))) as Hb.
  rewrite H in Ha. congruence.
Qed.

(** Two texts with the same first colon have the same parts. *)
Lemma split_colon (a a' b b' : string) :
  allDigits a = true -> allDigits a' = true ->
  a ++ ":" ++ b = a' ++ ":" ++ b' -> a = a' /\ b = b'.
Proof.
  revert a'. induction a as [|c a IH]; intros [|c' a'] Ha Ha' H; cbn in *.
  - injection H as H. now split.
  - injection H as Hc _. subst c'. discriminate Ha'.
  - injection H as Hc _. subst c. discriminate Ha.
  - injection H as Hc H. subst c'.
    apply andb_prop in Ha as [_ Ha]. apply andb_prop in Ha' as [_ Ha'].
    destruct (IH a' Ha Ha' H) as [-> ->]. now split.
Qed.

Lemma pad2_table : forallb pad2_ok (seq 0 60) = true.
Proof. vm_compute. reflexivity. Qed.

Lemma pad2_facts (n : Z) :
  0 <= n < 60 ->
  allDigits (pad2 n) = true /\ String.length (pad2 n) = 2%nat /\
  option_map Z.of_int (NilZero.int_of_string (pad2 n)) = Some n.
Proof.
  intros H.
  pose proof (proj1 (forallb_forall _ _) pad2_table (Z.to_nat n)) as T.
  assert (Hin : In (Z.to_nat n) (seq 0 60)) by (apply in_seq; lia).
  specialize (T Hin). unfold pad2_ok in T.
  rewrite Z2Nat.id in T by lia.
  apply andb_prop in T as [T T3]. apply andb_prop in T as [T1 T2].
  split; [exact T1|]. split; [now apply Nat.eqb_eq|].
  destruct (NilZero.int_of_string (pad2 n)); [|discriminate].
  cbn. f_equal. now apply Z.eqb_eq.
Qed.

Lemma pad2_inj (a b : Z) : 0 <= a < 60 -> 0 <= b < 60 -> pad2 a = pad2 b -> a = b.
Proof.
  intros Ha Hb H.
  destruct (pad2_facts a Ha) as (_ & _ & Pa). destruct (pad2_facts b Hb) as (_ & _ & Pb).
  rewrite H in Pa. congruence.
Qed.

Lemma length_app (a b : string) : String.length (a ++ b) = (String.length a + String.length b)%nat.
Proof. induction a; cbn; auto. Qed.

Lemma hms (a : Z) :
  0 <= a -> a = 3600 * (a / 3600) + 60 * (a mod 3600 / 60) + a mod 60.
Proof. intros H. Z.to_euclidean_division_equations. lia. Qed.

End FormatFacts.

Section TimerFacts.
Local Open Scope Z_scope.

Ltac timer_red :=
  cbv beta iota zeta delta
    [MiniTimer.checkFires MiniTimer.checkComplete MiniTimer.displayTime
     MiniTimer.getRemainingTime
     MiniTimer.getTargetTime MiniTimer.handlePomodoroComplete MiniTimer.handleToggle
     MiniTimer.handleReset MiniTimer.truthyNumber MiniTimer.isPomodoro
     MiniTimer.setSeconds MiniTimer.setIsRunning MiniTimer.setMode
     MiniTimer.setPomodoroPhase MiniTimer.setPomodoroSession
     MiniTimer.seconds MiniTimer.isRunning MiniTimer.mode
     MiniTimer.pomodoroPhase MiniTimer.pomodoroSession
     MiniTimer.WORK_TIME MiniTimer.SHORT_BREAK_TIME MiniTimer.LONG_BREAK_TIME andb negb].

Ltac timer_red_in H :=
  cbv beta iota zeta delta
    [MiniTimer.checkFires MiniTimer.checkComplete MiniTimer.getTargetTime
     MiniTimer.handlePomodoroComplete MiniTimer.truthyNumber MiniTimer.isPomodoro
     MiniTimer.setSeconds MiniTimer.setIsRunning MiniTimer.setMode
     MiniTimer.setPomodoroPhase MiniTimer.setPomodoroSession
     MiniTimer.seconds MiniTimer.isRunning MiniTimer.mode
     MiniTimer.pomodoroPhase MiniTimer.pomodoroSession
     MiniTimer.WORK_TIME MiniTimer.SHORT_BREAK_TIME MiniTimer.LONG_BREAK_TIME andb negb] in H.


(** X5. Whatever the user clicks and whatever count the parent hands in,
    from the moment the widget is mounted the session number stays between 1
    and 4, a short break is only entered with at most three sessions done,
    and a long break only after the fourth. *)
Theorem pomodoro_session_in_range (acts : list MiniTimer.Action) (sec : Z) (flag : bool) :
  let s := MiniTimer.run acts (MiniTimer.mount sec flag) in
  1 <= MiniTimer.pomodoroSession s <= 4 /\
  (MiniTimer.pomodoroPhase s = MiniTimer.shortBreak -> MiniTimer.pomodoroSession s <= 3) /\
  (MiniTimer.pomodoroPhase s = MiniTimer.longBreak -> MiniTimer.pomodoroSession s = 4).
Proof.
  exact (MiniTimerFacts.inRange_run acts _ (MiniTimerFacts.inRange_mount sec flag)).
Qed.

(** X6. The pomodoro cycle. In every state the widget reaches, eight
    completed phases lead back to the same phase and session. After a reset
    in pomodoro mode the eight phases that follow are: short break, work 2,
    short break, work 3, short break, work 4, long break, work 1; each
    completion leaves the timer stopped at zero. *)
Theorem pomodoro_cycle (acts : list MiniTimer.Action) (sec : Z) (flag : bool)
    (s0 : MiniTimer.State) (k : nat) :
  let s := MiniTimer.run acts (MiniTimer.mount sec flag) in
  let r := MiniTimer.handleReset (MiniTimer.setMode MiniTimer.pomodoro s0) in
  MiniTimer.pomodoroPhase (MiniTimer.complete 8 s) = MiniTimer.pomodoroPhase s /\
  MiniTimer.pomodoroSession (MiniTimer.complete 8 s) = MiniTimer.pomodoroSession s /\
  map (fun n => (MiniTimer.pomodoroPhase (MiniTimer.complete n r),
                 MiniTimer.pomodoroSession (MiniTimer.complete n r)))
      [0; 1; 2; 3; 4; 5; 6; 7; 8]%nat
  = [(MiniTimer.work, 1); (MiniTimer.shortBreak, 1); (MiniTimer.work, 2);
     (MiniTimer.shortBreak, 2); (MiniTimer.work, 3); (MiniTimer.shortBreak, 3);
     (MiniTimer.work, 4); (MiniTimer.longBreak, 4); (MiniTimer.work, 1)] /\
  MiniTimer.isRunning (MiniTimer.complete (S k) s0) = false /\
  MiniTimer.seconds (MiniTimer.complete (S k) s0) = 0.
Proof.
  intros s r.
  pose proof (MiniTimerFacts.inRange_run acts _ (MiniTimerFacts.inRange_mount sec flag)) as H.
  fold s in H. clearbody s.
  assert (P : MiniTimer.pomodoroPhase (MiniTimer.complete 8 s) = MiniTimer.pomodoroPhase s /\
              MiniTimer.pomodoroSession (MiniTimer.complete 8 s) = MiniTimer.pomodoroSession s).
  { destruct s as [c f m p n], H as ((H1 & H4) & H2 & H3).
    change (1 <= n) in H1. change (n <= 4) in H4.
    change (p = MiniTimer.shortBreak -> n <= 3) in H2.
    change (p = MiniTimer.longBreak -> n = 4) in H3.
    assert (E : n = 1 \/ n = 2 \/ n = 3 \/ n = 4) by lia.
    destruct p; [| specialize (H2 eq_refl) | specialize (H3 eq_refl)];
      destruct E as [-> | [-> | [-> | ->]]]; try lia; vm_compute; split; reflexivity. }
  destruct P as [P1 P2]. split; [exact P1|]. split; [exact P2|]. split.
  - subst r. destruct s0 as [c f m p n]. vm_compute. reflexivity.
  - clear. revert s0. induction k as [|k IH]; intros s0.
    + destruct s0 as [c f m p n].
      cbv beta iota zeta delta [MiniTimer.complete MiniTimer.handlePomodoroComplete
        MiniTimer.setSeconds MiniTimer.setIsRunning MiniTimer.setPomodoroPhase
        MiniTimer.setPomodoroSession MiniTimer.seconds MiniTimer.isRunning
        MiniTimer.pomodoroPhase MiniTimer.pomodoroSession MiniTimer.mode].
      destruct p; [destruct (n =? 4)| |]; split; reflexivity.
    + exact (IH (MiniTimer.handlePomodoroComplete s0)).
Qed.

(** X7. The render at the end of a phase. When the completion check does
    not fire, a render changes nothing. When it fires with the count at or
    beyond the length of a work phase, in particular whenever it fires in the
    work phase, every pass fires again: the render never settles, whatever
    the limit on passes, and React throws "Too many re-renders". When it
    fires in a break with the count below the length of a work phase, the
    next pass is quiet and the render leaves exactly the state of
    [handlePomodoroComplete]: the work phase, the timer stopped at 0. *)
Theorem render_at_phase_end (limit : nat) (s : MiniTimer.State) :
  if MiniTimer.checkFires s then
    (MiniTimer.WORK_TIME <= MiniTimer.seconds s -> MiniTimer.render limit s = None) /\
    (MiniTimer.pomodoroPhase s = MiniTimer.work -> MiniTimer.render limit s = None) /\
    (MiniTimer.seconds s < MiniTimer.WORK_TIME ->
     MiniTimer.render (S limit) s = Some (MiniTimer.handlePomodoroComplete s) /\
     MiniTimer.pomodoroPhase (MiniTimer.handlePomodoroComplete s) = MiniTimer.work /\
     MiniTimer.isRunning (MiniTimer.handlePomodoroComplete s) = false /\
     MiniTimer.seconds (MiniTimer.handlePomodoroComplete s) = 0)
  else MiniTimer.render limit s = Some s.
Proof.
  assert (loop : forall n s0, MiniTimer.checkFires s0 = true ->
            MiniTimer.WORK_TIME <= MiniTimer.seconds s0 -> MiniTimer.passes n s0 = None).
  { clear. induction n as [|n IH]; intros s0 Hf Hs; cbn [MiniTimer.passes]; rewrite Hf;
      [reflexivity|].
    apply IH.
    - destruct s0 as [c f m p k]. revert Hf Hs. timer_red.
      destruct m, f, p; timer_red; try discriminate; intros _ Hs;
        repeat match goal with
        | |- context [?a <=? ?b] => destruct (Z.leb_spec a b); timer_red
        | |- context [?a =? ?b] => destruct (Z.eqb_spec a b); timer_red
        end; first [ reflexivity | exfalso; lia ].
    - destruct s0 as [c f m p k]. unfold MiniTimer.checkComplete. rewrite Hf.
      exact Hs. }
  destruct (MiniTimer.checkFires s) eqn:Hf.
  - split; [|split].
    + intros Hs. unfold MiniTimer.render. rewrite (loop limit s Hf Hs). reflexivity.
    + intros Hp. unfold MiniTimer.render. rewrite (loop limit s Hf); [reflexivity|].
      destruct s as [c f m p k]. cbn in Hp. subst p. revert Hf. timer_red.
      destruct m, f; timer_red; try discriminate.
      destruct (Z.eqb_spec (25 * 60) 0); timer_red; [discriminate|].
      destruct (Z.leb_spec (25 * 60) c); [intros _; assumption|discriminate].
    + intros Hs.
      assert (Hq : MiniTimer.checkFires (MiniTimer.checkComplete s) = false /\
                   MiniTimer.setSeconds 0
                     (MiniTimer.setIsRunning false (MiniTimer.checkComplete s))
                   = MiniTimer.handlePomodoroComplete s /\
                   MiniTimer.pomodoroPhase (MiniTimer.handlePomodoroComplete s)
                   = MiniTimer.work).
      { destruct s as [c f m p k]. revert Hf Hs. timer_red.
        destruct m, f, p; timer_red; try discriminate;
          repeat match goal with
          | |- context [?a <=? ?b] => destruct (Z.leb_spec a b); timer_red
          | |- context [?a =? ?b] => destruct (Z.eqb_spec a b); timer_red
          end; intros Hf Hs; try discriminate Hf; try (exfalso; lia);
          repeat split; reflexivity. }
      destruct Hq as (Hn & Hq & Hw).
      unfold MiniTimer.render. cbn [MiniTimer.passes]. rewrite Hf.
      assert (Hp : MiniTimer.passes limit (MiniTimer.checkComplete s)
                   = Some (MiniTimer.checkComplete s))
        by (destruct limit; cbn [MiniTimer.passes]; rewrite Hn; reflexivity).
      rewrite Hp, Hq. split; [reflexivity|]. split; [exact Hw|].
      destruct s as [c f m p k]. timer_red. destruct p; [destruct (k =? 4)| |];
        split; reflexivity.
  - unfold MiniTimer.render. destruct limit; cbn [MiniTimer.passes]; rewrite Hf; reflexivity.
Qed.

(** X8. The start/pause button only flips the running flag: the branch
    for starting a new pomodoro phase sets the count to zero exactly when it
    already is zero. Pressing the button twice gives the state back. *)
Theorem toggle_only_flips_running (s : MiniTimer.State) :
  MiniTimer.handleToggle s = MiniTimer.setIsRunning (negb (MiniTimer.isRunning s)) s /\
  MiniTimer.handleToggle (MiniTimer.handleToggle s) = s.
Proof.
  assert (E : forall s, MiniTimer.handleToggle s
                        = MiniTimer.setIsRunning (negb (MiniTimer.isRunning s)) s).
  { clear. intros [c f m p n]. unfold MiniTimer.handleToggle. cbn.
    destruct (MiniTimer.isPomodoro m && negb f) eqn:G; cbn; [|reflexivity].
    destruct (Z.eqb_spec c 0) as [->|]; [|reflexivity].
    destruct (MiniTimer.truthyNumber _); reflexivity. }
  split; [apply E|]. rewrite !E. destruct s as [c f m p n]. cbn.
  now rewrite negb_involutive.
Qed.

(** X9. The time display tells non-negative times apart: two of them are
    formatted to the same text only if they are equal. *)
Theorem formatTime_injective (a b : Z) :
  0 <= a -> 0 <= b ->
  (MiniTimer.formatTime a = MiniTimer.formatTime b <-> a = b).
Proof.
  intros Ha Hb. split; [|intros ->; reflexivity]. revert Ha Hb.
  intros Ha Hb. unfold MiniTimer.formatTime. cbv zeta.
  rewrite !Z.rem_mod_nonneg by lia.
  fold (MiniTimer.pad2 (a mod 3600 / 60)) (MiniTimer.pad2 (a mod 60)) (MiniTimer.pad2 (b mod 3600 / 60)) (MiniTimer.pad2 (b mod 60)).
  assert (Ma : 0 <= a mod 3600 / 60 < 60) by (split; [apply Z.div_pos; [apply Z.mod_pos_bound|]; lia | apply Z.div_lt_upper_bound; [lia|]; pose proof (Z.mod_pos_bound a 3600); lia]).
  assert (Mb : 0 <= b mod 3600 / 60 < 60) by (split; [apply Z.div_pos; [apply Z.mod_pos_bound|]; lia | apply Z.div_lt_upper_bound; [lia|]; pose proof (Z.mod_pos_bound b 3600); lia]).
  assert (Sa : 0 <= a mod 60 < 60) by (apply Z.mod_pos_bound; lia).
  assert (Sb : 0 <= b mod 60 < 60) by (apply Z.mod_pos_bound; lia).
  assert (Ha3 : 0 <= a / 3600) by (apply Z.div_pos; lia).
  assert (Hb3 : 0 <= b / 3600) by (apply Z.div_pos; lia).
  destruct (FormatFacts.pad2_facts _ Ma) as (Dma & Lma & _). destruct (FormatFacts.pad2_facts _ Mb) as (Dmb & Lmb & _).
  destruct (FormatFacts.pad2_facts _ Sa) as (Dsa & Lsa & _). destruct (FormatFacts.pad2_facts _ Sb) as (Dsb & Lsb & _).
  destruct (Z.ltb_spec 0 (a / 3600)) as [Pa|Pa], (Z.ltb_spec 0 (b / 3600)) as [Pb|Pb]; intros H.
  - apply FormatFacts.split_colon in H as [Hh H]; try (apply FormatFacts.allDigits_toString; lia).
    apply FormatFacts.split_colon in H as [Hm Hs]; try assumption.
    apply FormatFacts.toString_inj in Hh. apply FormatFacts.pad2_inj in Hm; try assumption. apply FormatFacts.pad2_inj in Hs; try assumption.
    rewrite (FormatFacts.hms a Ha), (FormatFacts.hms b Hb). congruence.
  - apply FormatFacts.split_colon in H as [_ H]; try (apply FormatFacts.allDigits_toString; lia).
    apply (f_equal String.length) in H. rewrite !FormatFacts.length_app, Lma, Lsa, Lsb in H. cbn in H. lia.
  - apply FormatFacts.split_colon in H as [_ H]; try (apply FormatFacts.allDigits_toString; lia).
    apply (f_equal String.length) in H. rewrite !FormatFacts.length_app, Lmb, Lsb, Lsa in H. cbn in H. lia.
  - apply FormatFacts.split_colon in H as [Hm Hs]; try (apply FormatFacts.allDigits_toString; lia).
    apply FormatFacts.toString_inj in Hm. apply FormatFacts.pad2_inj in Hs; try assumption.
    rewrite (FormatFacts.hms a Ha), (FormatFacts.hms b Hb). replace (a / 3600) with 0 by lia. replace (b / 3600) with 0 by lia.
    congruence.
Qed.

Lemma formatTime_injective_witness :
  MiniTimer.formatTime 3725 = MiniTimer.formatTime 3725 <-> 3725 = 3725.
Proof. apply (formatTime_injective 3725 3725); lia. Defined.

End TimerFacts.

(** ** More invariants of reachable states *)

(** A property that the engine's building blocks keep is kept by every
    action, and so holds in every state reached from a state that has it. *)
Section InvariantRecipe.

Variable P : Engine -> Prop.
Variable nextIndex : nat -> option nat -> option nat.

Hypothesis P_emit : forall e, preserves P (emit e).
Hypothesis P_play : preserves P play.
Hypothesis P_pause : preserves P pause.
Hypothesis P_stopCurrentPlayback : preserves P stopCurrentPlayback.
Hypothesis P_loadSong : forall w song, preserves P (loadSong w song).
Hypothesis P_destroy : preserves P destroy.
Hypothesis P_setVolume : forall v, preserves P (setVolume v).
Hypothesis P_setTime : forall t, preserves P (setTime t).
Hypothesis P_onTimeUpdate : preserves P onTimeUpdate.
Hypothesis P_startYouTubeVisualization : preserves P startYouTubeVisualization.
Hypothesis P_stopYouTubeVisualization : preserves P stopYouTubeVisualization.
Hypothesis P_updateVisualizationData : forall t, preserves P (updateVisualizationData t).
Hypothesis P_initYouTubePlayer : preserves P initYouTubePlayer.
Hypothesis P_playerBecomesReady : preserves P playerBecomesReady.
Hypothesis P_apiLoads : preserves P apiLoads.
Hypothesis P_set_queue : forall q, preserves P (modify (set_queue q)).
Hypothesis P_set_frames : forall f, preserves P (modify (set_frames f)).
Hypothesis P_set_timeouts : forall f, preserves P (modify (fun s => set_timeouts (f s) s)).
Hypothesis P_set_policy : forall rr pr, preserves P (modify (set_policy rr pr)).
Hypothesis P_set_playerState : forall st,
  preserves P (updatePlayer (fun p =>
    {| hasApi := hasApi p; playerState := st; playerVolume := playerVolume p;
       playerTime := playerTime p; playerDuration := playerDuration p;
       destroyed := destroyed p |})).

Lemma kept_by_reportErrors m : preserves P m -> preserves P (reportErrors m).
Proof. intros H. apply preserves_tryCatch; [exact H|intros e; apply P_emit]. Qed.

Lemma kept_by_setPlaying song : preserves P (setPlaying song).
Proof.
  unfold setPlaying.
  apply preserves_bind; [apply preserves_get|intros s0; cbv zeta].
  apply preserves_bind; [apply P_stopCurrentPlayback|intros _; apply P_loadSong].
Qed.

Lemma kept_by_queueNext : preserves P (queueNext nextIndex).
Proof.
  unfold queueNext.
  apply preserves_bind; [apply preserves_get|intros s0; cbv zeta].
  apply preserves_bind; [apply P_set_queue|intros _]. unfold onUpdate.
  apply preserves_bind;
    [ destruct (match nextIndex _ _ with Some k => _ | None => None end);
        [apply kept_by_setPlaying|apply preserves_ret]
    | intros _ ].
  apply preserves_bind; [apply P_emit|intros _; apply P_emit].
Qed.

Lemma kept_by_onEnded : preserves P (onEnded nextIndex).
Proof.
  unfold onEnded.
  apply preserves_bind; [apply kept_by_queueNext|intros _; apply kept_by_reportErrors, P_play].
Qed.

Lemma kept_by_perform a : preserves P (perform nextIndex a).
Proof.
  destruct a; cbn [perform].
  - apply kept_by_reportErrors, P_play.
  - apply kept_by_reportErrors, P_pause.
  - apply kept_by_reportErrors, kept_by_setPlaying.
  - apply kept_by_reportErrors, P_destroy.
  - apply kept_by_reportErrors, P_setVolume.
  - apply kept_by_reportErrors, P_setTime.
  - apply kept_by_reportErrors, kept_by_queueNext.
  - unfold fireTimeout.
    apply preserves_bind; [apply preserves_get|intros s0].
    destruct (nth_error (timeouts s0) n) as [[]|]; [| |apply preserves_ret];
      (apply preserves_bind; [apply P_set_timeouts|intros _; apply kept_by_reportErrors]).
    + apply kept_by_reportErrors, P_play.
    + apply P_initYouTubePlayer.
  - unfold fireInterval.
    apply preserves_bind; [apply preserves_get|intros s0].
    apply preserves_when, kept_by_reportErrors, P_onTimeUpdate.
  - unfold fireAnimationFrame.
    apply preserves_bind; [apply preserves_get|intros s0].
    apply preserves_bind; [apply P_set_frames|intros _].
    apply preserves_forEach. intros f. apply kept_by_reportErrors, P_updateVisualizationData.
  - unfold audioFires.
    apply preserves_bind; [apply preserves_get|intros s0].
    apply preserves_forEach. intros l. apply kept_by_reportErrors.
    destruct (snd l); cbn [runHandler];
      [apply P_onTimeUpdate|apply P_emit|apply kept_by_onEnded].
  - unfold playerReports.
    apply preserves_bind; [apply preserves_get|intros s0].
    destruct (youtubePlayer s0); [|apply preserves_ret].
    apply preserves_bind; [apply P_set_playerState|intros _].
    apply kept_by_reportErrors.
    destruct st; cbn [playerOnStateChange]; try apply preserves_ret.
    + apply kept_by_onEnded.
    + apply preserves_bind; [apply P_startYouTubeVisualization|intros _; apply P_emit].
    + apply preserves_bind; [apply P_stopYouTubeVisualization|intros _; apply P_emit].
  - apply P_playerBecomesReady.
  - apply P_apiLoads.
  - apply P_set_policy.
Qed.

Lemma kept_by_run acts s : P s -> P (run nextIndex acts s).
Proof.
  revert s. induction acts as [|a acts IH]; intros s H; cbn [run fold_left].
  - exact H.
  - apply IH. apply kept_by_perform. exact H.
Qed.

End InvariantRecipe.

Ltac open_state := intros [? [? ? ? ? ? ?] ? ? ? ? ? ? ? ? ? ? ? ? ? ? ?].

Ltac crunch := repeat first [ progress run_engine | rewrite Nat.eqb_refl | break_goal ].

Ltac gains_leaf :=
  open_state; intros [n0 Hn0]; cbn in Hn0; subst; unfold gainsOnTop; crunch;
  first [ exists n0; reflexivity | exists (S n0); reflexivity ].

Lemma gains_run nextIndex l0 acts s :
  gainsOnTop l0 s -> gainsOnTop l0 (run nextIndex acts s).
Proof. apply kept_by_run; intros; unfold preserves; gains_leaf. Qed.

Ltac unhooked_leaf :=
  open_state; unfold unhooked; intros Hu; cbn in Hu; subst; crunch; reflexivity.

Lemma unhooked_run nextIndex acts s : unhooked s -> unhooked (run nextIndex acts s).
Proof. apply kept_by_run; intros; unfold preserves; unhooked_leaf. Qed.

Ltac known_leaf :=
  open_state; intros [? ?]; unfold playerKnown; crunch; cbn in *;
  split; intros; cbn in *; try congruence; try discriminate; auto;
  repeat match goal with H : ?a -> _, H' : ?a |- _ => specialize (H H') end;
  congruence.

Lemma known_run nextIndex acts s : playerKnown s -> playerKnown (run nextIndex acts s).
Proof. apply kept_by_run; intros; unfold preserves; known_leaf. Qed.

Lemma known_createMusicManager cfg : playerKnown (createMusicManager cfg).
Proof.
  destruct cfg as [ctx [] st rr pr]; unfold playerKnown; vm_compute;
    split; intros; congruence.
Qed.

(** X10. The embedded player comes into being with the IFrame API. When the
    API is loaded at creation the engine has a player at once; otherwise it
    leaves a callback, the API's arrival schedules [initYouTubePlayer], and
    the player exists once that timeout has run. In every state the engine
    reaches there is no player as long as the API is missing, and whenever
    ['youtube'] is the current type there is a player. *)
Theorem player_exists_when_selected
    (nextIndex : nat -> option nat -> option nat) (cfg : Config) (acts : list Action) :
  let s := run nextIndex acts (createMusicManager cfg) in
  (windowYT s = false -> youtubePlayer s = None) /\
  (currentSongType s = youtube_type -> youtubePlayer s <> None) /\
  if apiLoaded cfg then youtubePlayer (createMusicManager cfg) <> None
  else
    youtubePlayer (createMusicManager cfg) = None /\
    apiReadyCallback (createMusicManager cfg) = true /\
    youtubePlayer (run nextIndex [ApiLoads] (createMusicManager cfg)) = None /\
    timeouts (run nextIndex [ApiLoads] (createMusicManager cfg)) = [InitPlayer] /\
    youtubePlayer (run nextIndex [ApiLoads; FireTimeout 0] (createMusicManager cfg)) <> None.
Proof.
  intros s.
  destruct (known_run nextIndex acts _ (known_createMusicManager cfg)) as [H1 H2].
  split; [exact H1|]. split; [exact H2|].
  destruct cfg as [ctx [] st rr pr]; vm_compute; repeat split; discriminate.
Qed.

Lemma gains_createMusicManager cfg : gainsOnTop [MediaElementSource] (createMusicManager cfg).
Proof. exists 0%nat. destruct cfg as [ctx [] st rr pr]; reflexivity. Qed.

Lemma playing_report_adds_gain nextIndex (s : Engine) :
  youtubePlayer s <> None ->
  analyserInputs (exec (playerReports nextIndex PLAYING) s) = GainNode 0%Q :: analyserInputs s.
Proof.
  revert s. open_state. cbn. intros Hp.
  unfold playerReports, playerOnStateChange. crunch; first [reflexivity | congruence].
Qed.

Lemma destroy_keeps_inputs (s : Engine) :
  analyserInputs (exec (reportErrors destroy) s) = analyserInputs s.
Proof. revert s. open_state. crunch; reflexivity. Qed.

(** X11. The generator's silent gain nodes pile up on the analyser. In
    every state the engine reaches, the analyser's inputs are the audio
    element's source with some gain nodes of gain zero on top; whatever
    happens next only adds to them; each PLAYING report of the player adds
    one; and [destroy()] disconnects none. *)
Theorem silent_gains_pile_up
    (nextIndex : nat -> option nat -> option nat) (cfg : Config) (acts acts' : list Action) :
  let s := run nextIndex acts (createMusicManager cfg) in
  (exists n, analyserInputs s = repeat (GainNode 0%Q) n ++ [MediaElementSource])%list /\
  (exists k, analyserInputs (run nextIndex acts' s)
             = repeat (GainNode 0%Q) k ++ analyserInputs s)%list /\
  (youtubePlayer s <> None ->
   analyserInputs (step nextIndex s (PlayerReports PLAYING))
   = GainNode 0%Q :: analyserInputs s) /\
  analyserInputs (step nextIndex s CallDestroy) = analyserInputs s.
Proof.
  intros s. split; [|split; [|split]].
  - exact (gains_run nextIndex _ acts _ (gains_createMusicManager cfg)).
  - apply (gains_run nextIndex (analyserInputs s) acts' s). exists 0%nat. reflexivity.
  - apply playing_report_adds_gain.
  - apply destroy_keeps_inputs.
Qed.

Lemma audioFires_once nextIndex (e : AudioEvent) (s : Engine) :
  listeners (audio s) = initListeners ->
  (e = ev_play \/ e = ev_pause) ->
  audioFires nextIndex e s = (Normal tt, set_trace (NotifyStateChange :: trace s) s).
Proof.
  revert s. open_state. cbn. intros -> [-> | ->]; reflexivity.
Qed.

Lemma audioFires_unhooked nextIndex (e : AudioEvent) (s : Engine) :
  unhooked s -> audioFires nextIndex e s = (Normal tt, s).
Proof.
  unfold unhooked, audioFires, bind, get. intros ->. reflexivity.
Qed.

(** X12. Notifications for the audio element's events. In every state the
    engine reaches, the element carries either the four listeners of [init]
    or none. With the listeners in place a [play] or [pause] event of the
    element is passed on as exactly one [onStateChange] notification. Once
    [destroy()] has run, whatever happens afterwards, an event of the
    element changes nothing and notifies nobody. *)
Theorem audio_events_notify_until_destroy
    (nextIndex : nat -> option nat -> option nat) (cfg : Config)
    (acts acts' : list Action) (e : AudioEvent) :
  let s := run nextIndex acts (createMusicManager cfg) in
  let d := run nextIndex acts' (step nextIndex s CallDestroy) in
  listeners (audio (createMusicManager cfg)) = initListeners /\
  (listeners (audio s) = initListeners \/ listeners (audio s) = []) /\
  (listeners (audio s) = initListeners ->
   audioFires nextIndex ev_play s = (Normal tt, set_trace (NotifyStateChange :: trace s) s) /\
   audioFires nextIndex ev_pause s = (Normal tt, set_trace (NotifyStateChange :: trace s) s)) /\
  audioFires nextIndex e d = (Normal tt, d).
Proof.
  intros s d.
  pose proof (wf_run nextIndex acts _ (wf_createMusicManager cfg)) as Hwf. fold s in Hwf.
  split; [destruct cfg as [ctx [] st rr pr]; reflexivity|].
  split; [exact (proj1 (proj2 (proj2 (proj2 (proj2 Hwf)))))|].
  split.
  - intros Hl. split; apply audioFires_once; auto.
  - apply audioFires_unhooked, unhooked_run.
    destruct (destroy_spec s Hwf) as (s1 & Hd & _ & _ & Hl & _).
    unfold unhooked, step, exec. cbn [perform]. unfold reportErrors, tryCatch.
    rewrite Hd. exact Hl.
Qed.

Lemma play_spec (s : Engine) :
  wf s ->
  match youtubeReady s with
  | Some _ =>
      exists s', play s = (Normal tt, s') /\
        trace s' = PlayVideo :: trace s /\
        intervals s' = [nextId s] /\
        youtubeTimeUpdateInterval s' = Some (nextId s) /\
        audio s' = audio s
  | None =>
      if (match contextState s with suspended => resumeRejects s | running => false end)
         || playRejects s
      then exists s', play s = (Throw NotAllowedError, s') /\ audio s' = audio s
      else exists s', play s = (Normal tt, s') /\
        paused (audio s') = false /\ contextState s' = running /\
        isPaused s' = false /\ intervals s' = intervals s
  end.
Proof.
  revert s. open_wf;
    repeat first [ progress run_engine | rewrite Nat.eqb_refl | break_goal ];
    eexists; repeat split; reflexivity.
Qed.

(** X13. What [play()] does in every state the engine reaches. With the
    embedded player active and callable it returns normally, issues
    [playVideo()], and leaves exactly one polling interval running, the new
    one, whose id it stores; the audio element is not touched. Otherwise,
    unless the browser rejects the resume of a suspended context or the
    element's [play()], it returns normally with the context running and the
    element playing, so that [isPaused()] is false; if the browser rejects,
    the promise is rejected and the element is as before. *)
Theorem play_starts_active_backend
    (nextIndex : nat -> option nat -> option nat) (cfg : Config) (acts : list Action) :
  let s := run nextIndex acts (createMusicManager cfg) in
  match youtubeReady s with
  | Some _ =>
      exists s', play s = (Normal tt, s') /\
        trace s' = PlayVideo :: trace s /\
        intervals s' = [nextId s] /\
        youtubeTimeUpdateInterval s' = Some (nextId s) /\
        audio s' = audio s
  | None =>
      if (match contextState s with suspended => resumeRejects s | running => false end)
         || playRejects s
      then exists s', play s = (Throw NotAllowedError, s') /\ audio s' = audio s
      else exists s', play s = (Normal tt, s') /\
        paused (audio s') = false /\ contextState s' = running /\
        isPaused s' = false /\ intervals s' = intervals s
  end.
Proof. intros s. apply play_spec, wf_run, wf_createMusicManager. Qed.

(** X14. Time notifications agree with the getters. [onTimeUpdate] either
    notifies the UI with exactly what [getTime()] and [getDuration()] return
    and changes nothing else, or, when ['youtube'] is the current type and
    the player is absent or not callable, does nothing at all. A tick of a
    running polling interval is one [onTimeUpdate]; a tick of a cleared
    interval is nothing. *)
Theorem time_update_reports_getters
    (nextIndex : nat -> option nat -> option nat) (s : Engine) (id : nat) :
  (onTimeUpdate s
     = (Normal tt, set_trace (NotifyTimeUpdate (getTime s) (getDuration s) :: trace s) s) \/
   currentSongType s = youtube_type /\ youtubeReady s = None /\
   onTimeUpdate s = (Normal tt, s)) /\
  fireInterval id s = (if existsb (Nat.eqb id) (intervals s) then onTimeUpdate s
                       else (Normal tt, s)).
Proof.
  split.
  - destruct s as [? [? ? ? ? ? ?] yp cst ? ? ? ? ? ? ? ? ? ? ? ? ?].
    destruct cst, yp as [[[] ? ? ? ? ?]|];
      first [ left; reflexivity | right; repeat split; reflexivity ].
  - unfold fireInterval, bind, get, when.
    destruct (existsb (Nat.eqb id) (intervals s)); [|reflexivity].
    destruct s as [? [? ? ? ? ? ?] yp cst ? ? ? ? ? ? ? ? ? ? ? ? ?].
    destruct cst, yp as [[[] ? ? ? ? ?]|]; reflexivity.
Qed.

Lemma tick_requests_frame (t : Q) (s : Engine) (o : Oscillator) :
  oscillator s = Some o ->
  reportErrors (updateVisualizationData t) s
  = (Normal tt,
     set_nextId (S (nextId s))
       (set_frames (frames s ++ [{| frameId := nextId s; timeOffset := (t + (1 # 10))%Q |}]) s)).
Proof.
  revert s. open_state. cbn. intros ->. reflexivity.
Qed.

Lemma forEach_ticks (l : list Frame) (s : Engine) (o : Oscillator) :
  oscillator s = Some o ->
  exists s',
    forEach l (fun f => reportErrors (updateVisualizationData (timeOffset f))) s
    = (Normal tt, s') /\
    map timeOffset (frames s')
    = (map timeOffset (frames s) ++ map (fun f => (timeOffset f + (1 # 10))%Q) l)%list /\
    oscillator s' = Some o /\ trace s' = trace s /\ intervals s' = intervals s /\
    analyserInputs s' = analyserInputs s.
Proof.
  revert s. induction l as [|f l IH]; intros s Ho; cbn [forEach].
  - exists s. cbn [map]. rewrite app_nil_r. repeat split; try reflexivity; exact Ho.
  - unfold bind. rewrite (tick_requests_frame _ s o Ho).
    destruct (IH (set_nextId (S (nextId s))
                    (set_frames (frames s ++ [{| frameId := nextId s;
                                                 timeOffset := (timeOffset f + (1 # 10))%Q |}]) s)))
      as (s' & Hrun & Hfr & Hosc & Htr & Hiv & Hai).
    { destruct s; exact Ho. }
    exists s'. split; [exact Hrun|].
    split; [|destruct s; repeat split; assumption].
    rewrite Hfr. destruct s; cbn. rewrite map_app, <- app_assoc. reflexivity.
Qed.

(** X15. Frame loops are conserved while the generator runs. On an
    animation frame with the oscillator in place, every pending callback of
    the generator requests exactly one successor, whose [timeOffset] is 0.1
    further; nothing else changes in the engine, the trace and the analyser's
    inputs included. So a loop started by a PLAYING report never ends by
    itself, and never splits. *)
Theorem frame_loops_are_conserved (s : Engine) (o : Oscillator) :
  oscillator s = Some o ->
  exists s',
    fireAnimationFrame s = (Normal tt, s') /\
    map timeOffset (frames s') = map (fun f => (timeOffset f + (1 # 10))%Q) (frames s) /\
    List.length (frames s') = List.length (frames s) /\
    oscillator s' = Some o /\ trace s' = trace s /\ intervals s' = intervals s /\
    analyserInputs s' = analyserInputs s.
Proof.
  intros Ho. unfold fireAnimationFrame, bind, get, modify.
  destruct (forEach_ticks (frames s) (set_frames [] s) o) as (s' & Hrun & Hfr & Hrest).
  { destruct s; exact Ho. }
  exists s'. split; [exact Hrun|].
  assert (Hfr' : map timeOffset (frames s')
                 = map (fun f => (timeOffset f + (1 # 10))%Q) (frames s)).
  { rewrite Hfr. destruct s; reflexivity. }
  split; [exact Hfr'|]. split.
  - rewrite <- (length_map timeOffset), Hfr', length_map. reflexivity.
  - destruct s; exact Hrest.
Qed.

Lemma frame_loops_are_conserved_witness :
  exists s',
    fireAnimationFrame sVideoPlaying = (Normal tt, s') /\
    map timeOffset (frames s') = [((0 + (1 # 10)) + (1 # 10))%Q] /\
    List.length (frames s') = 1%nat.
Proof.
  destruct (frame_loops_are_conserved sVideoPlaying
              {| started := true; connected := true; _animationId := None |} eq_refl)
    as (s' & H1 & H2 & H3 & _).
  exists s'. split; [exact H1|]. split; [exact H2|exact H3].
Defined.

Lemma report_spec nextIndex (st : PlayerState) (s : Engine) :
  wf s -> youtubePlayer s <> None ->
  match st with
  | ENDED => True
  | PLAYING =>
      exists s', playerReports nextIndex st s = (Normal tt, s') /\
        oscillator s' = Some {| started := true; connected := true; _animationId := None |} /\
        List.length (frames s') = S (List.length (frames s)) /\
        trace s' = NotifyStateChange :: trace s /\
        intervals s' = intervals s /\ paused (audio s') = paused (audio s)
  | PAUSED =>
      exists s', playerReports nextIndex st s = (Normal tt, s') /\
        oscillator s' = None /\ frames s' = frames s /\
        trace s' = NotifyStateChange :: trace s /\
        intervals s' = intervals s /\ paused (audio s') = paused (audio s)
  | _ =>
      playerReports nextIndex st s
      = (Normal tt,
         set_youtubePlayer
           (option_map (fun p =>
              {| hasApi := hasApi p; playerState := st; playerVolume := playerVolume p;
                 playerTime := playerTime p; playerDuration := playerDuration p;
                 destroyed := destroyed p |}) (youtubePlayer s)) s)
  end.
Proof.
  revert s. open_wf; intros Hyp;
    destruct st; try exact I;
    unfold playerReports, playerOnStateChange;
    repeat first [ progress run_engine | rewrite Nat.eqb_refl | break_goal ];
    try (exfalso; apply Hyp; reflexivity);
    try (cbn in Ho; discriminate Ho);
    first [ reflexivity
          | eexists; split; [reflexivity|]; repeat split;
            first [ reflexivity | cbn; rewrite length_app; cbn; lia ] ].
Qed.

(** X16. What a state report of the player does, in every state the engine
    reaches in which a player exists. PLAYING starts the generator (a started,
    connected oscillator and one more frame callback) and notifies
    [onStateChange] once. PAUSED drops the oscillator and notifies once.
    Neither touches the polling interval or the audio element: a player
    that reports PAUSED by itself is still polled. UNSTARTED, BUFFERING and
    CUED are only recorded. *)
Theorem player_state_reports
    (nextIndex : nat -> option nat -> option nat) (cfg : Config) (acts : list Action)
    (st : PlayerState) :
  let s := run nextIndex acts (createMusicManager cfg) in
  youtubePlayer s = None \/
  match st with
  | ENDED => True
  | PLAYING =>
      exists s', playerReports nextIndex st s = (Normal tt, s') /\
        oscillator s' = Some {| started := true; connected := true; _animationId := None |} /\
        List.length (frames s') = S (List.length (frames s)) /\
        trace s' = NotifyStateChange :: trace s /\
        intervals s' = intervals s /\ paused (audio s') = paused (audio s)
  | PAUSED =>
      exists s', playerReports nextIndex st s = (Normal tt, s') /\
        oscillator s' = None /\ frames s' = frames s /\
        trace s' = NotifyStateChange :: trace s /\
        intervals s' = intervals s /\ paused (audio s') = paused (audio s)
  | _ =>
      playerReports nextIndex st s
      = (Normal tt,
         set_youtubePlayer
           (option_map (fun p =>
              {| hasApi := hasApi p; playerState := st; playerVolume := playerVolume p;
                 playerTime := playerTime p; playerDuration := playerDuration p;
                 destroyed := destroyed p |}) (youtubePlayer s)) s)
  end.
Proof.
  intros s.
  assert (D : youtubePlayer s = None \/ youtubePlayer s <> None)
    by (destruct (youtubePlayer s); [right; discriminate|left; reflexivity]).
  destruct D as [D|D]; [left; exact D|right].
  apply (report_spec nextIndex st s); [apply wf_run, wf_createMusicManager|exact D].
Qed.

(** ** The add-song form *)

Module FormFacts.
Import Url Form.

Lemma whiteSpace_inert : forallb allInert whiteSpace = true.
Proof. vm_compute. reflexivity. Qed.

Lemma whiteSpace_rev_inert : forallb allInert (map reverse whiteSpace) = true.
Proof. vm_compute. reflexivity. Qed.

Lemma stripPrefix_app (p s r : string) : stripPrefix p s = Some r -> s = p ++ r.
Proof.
  revert s. induction p as [|a p IH]; intros s; cbn.
  - intros [= ->]. reflexivity.
  - destruct s as [|b s]; [discriminate|].
    destruct (Ascii.eqb_spec a b) as [->|]; [|discriminate].
    intros H. rewrite (IH _ H). reflexivity.
Qed.

Lemma stripAny_app (pats : list string) (s r : string) :
  stripAny pats s = Some r -> exists p, In p pats /\ s = p ++ r.
Proof.
  induction pats as [|p pats IH]; cbn; [discriminate|].
  destruct (stripPrefix p s) as [r'|] eqn:E.
  - intros [= ->]. exists p. split; [now left|]. now apply stripPrefix_app.
  - intros H. destruct (IH H) as (q & Hq & Hs). exists q. split; [now right|exact Hs].
Qed.

Lemma matchHere_inert (c : ascii) (s : string) :
  isInert c = true -> matchHere (String c s) = None.
Proof.
  intros H. unfold matchHere, idAfter. cbn [stripPrefix].
  destruct (Ascii.eqb_spec "y" c) as [<-|]; [discriminate H|reflexivity].
Qed.

Lemma regexExec_skip (w s : string) :
  allInert w = true -> regexExec (w ++ s) = regexExec s.
Proof.
  induction w as [|c w IH]; [reflexivity|]. cbn [allInert].
  intros H. apply andb_prop in H as [Hc Hw].
  change (String c w ++ s) with (String c (w ++ s)). cbn [regexExec].
  rewrite (matchHere_inert c _ Hc). exact (IH Hw).
Qed.

Lemma regexExec_inert (w : string) : allInert w = true -> regexExec w = None.
Proof.
  induction w as [|c w IH]; [reflexivity|]. cbn [allInert].
  intros H. apply andb_prop in H as [Hc Hw].
  cbn [regexExec]. rewrite (matchHere_inert c _ Hc). exact (IH Hw).
Qed.

Lemma takeIdChars_inert (r w : string) :
  startsInert w = true -> takeIdChars (r ++ w) = takeIdChars r.
Proof.
  intros H. induction r as [|c r IH]; cbn.
  - destruct w as [|c w]; [reflexivity|]. cbn in *.
    unfold isInert in H. apply andb_prop in H as [H _].
    destruct (isIdChar c); [discriminate H|reflexivity].
  - rewrite IH. reflexivity.
Qed.

Lemma stripPrefix_inert (lit s w : string) :
  noneInert lit = true -> startsInert w = true ->
  stripPrefix lit (s ++ w) = option_map (fun r => r ++ w) (stripPrefix lit s).
Proof.
  intros Hl Hw. revert s. induction lit as [|a lit IH]; intros s; [reflexivity|].
  cbn [noneInert] in Hl. apply andb_prop in Hl as [Ha Hl].
  destruct s as [|b s]; cbn.
  - destruct w as [|c w]; [reflexivity|]. cbn in Hw.
    destruct (Ascii.eqb_spec a c) as [->|]; [|reflexivity].
    rewrite Hw in Ha. discriminate Ha.
  - destruct (Ascii.eqb a b); [apply IH, Hl|reflexivity].
Qed.

Lemma idAfter_inert (lit s w : string) :
  noneInert lit = true -> startsInert w = true ->
  idAfter lit (s ++ w) = idAfter lit s.
Proof.
  intros Hl Hw. unfold idAfter. rewrite (stripPrefix_inert _ _ _ Hl Hw).
  destruct (stripPrefix lit s) as [r|]; [|reflexivity]. cbn.
  rewrite (takeIdChars_inert _ _ Hw). reflexivity.
Qed.

Lemma allInert_starts (w : string) : allInert w = true -> startsInert w = true.
Proof. destruct w; cbn; [reflexivity|]. intros H. now apply andb_prop in H as [H _]. Qed.

Lemma regexExec_app_inert (s w : string) :
  allInert w = true -> regexExec (s ++ w) = regexExec s.
Proof.
  intros H. pose proof (allInert_starts w H) as Hw.
  induction s as [|c s IH].
  - cbn [append]. rewrite (regexExec_inert w H). reflexivity.
  - change (String c s ++ w) with (String c (s ++ w)). cbn [regexExec].
    unfold matchHere.
    change (String c (s ++ w)) with (String c s ++ w).
    rewrite !idAfter_inert by (exact Hw || reflexivity).
    destruct (idAfter "youtube.com/watch?v=" (String c s)); [reflexivity|].
    destruct (idAfter "youtu.be/" (String c s)); [reflexivity|exact IH].
Qed.

Lemma reverse_involutive (s : string) : reverse (reverse s) = s.
Proof.
  unfold reverse. rewrite list_ascii_of_string_of_list_ascii, List.rev_involutive.
  apply string_of_list_ascii_of_string.
Qed.

Lemma list_of_app (a b : string) :
  list_ascii_of_string (a ++ b) = (list_ascii_of_string a ++ list_ascii_of_string b)%list.
Proof. induction a; cbn; congruence. Qed.

Lemma string_of_app (a b : list ascii) :
  string_of_list_ascii (a ++ b) = string_of_list_ascii a ++ string_of_list_ascii b.
Proof. induction a; cbn; congruence. Qed.

Lemma reverse_app (a b : string) : reverse (a ++ b) = reverse b ++ reverse a.
Proof. unfold reverse. now rewrite list_of_app, List.rev_app_distr, string_of_app. Qed.

Lemma regexExec_stripAll_start (fuel : nat) (s : string) :
  regexExec (stripAll whiteSpace fuel s) = regexExec s.
Proof.
  revert s. induction fuel as [|fuel IH]; intros s; cbn [stripAll]; [reflexivity|].
  destruct (stripAny whiteSpace s) as [r|] eqn:E; [|reflexivity].
  apply stripAny_app in E as (p & Hp & ->).
  rewrite IH. symmetry. apply regexExec_skip.
  exact (proj1 (forallb_forall _ _) whiteSpace_inert p Hp).
Qed.

Lemma regexExec_stripAll_end (fuel : nat) (s : string) :
  regexExec (reverse (stripAll (map reverse whiteSpace) fuel (reverse s))) = regexExec s.
Proof.
  revert s. induction fuel as [|fuel IH]; intros s; cbn [stripAll];
    [now rewrite reverse_involutive|].
  destruct (stripAny (map reverse whiteSpace) (reverse s)) as [r|] eqn:E;
    [|now rewrite reverse_involutive].
  apply stripAny_app in E as (p & Hp & Hs).
  pose proof (proj1 (forallb_forall _ _) whiteSpace_rev_inert p Hp) as Hi.
  apply in_map_iff in Hp as (w & <- & Hw).
  pose proof (proj1 (forallb_forall _ _) whiteSpace_inert w Hw) as Hwi.
  apply (f_equal reverse) in Hs. rewrite reverse_involutive, reverse_app, reverse_involutive in Hs.
  rewrite <- (reverse_involutive r). rewrite IH. subst s.
  symmetry. apply regexExec_app_inert, Hwi.
Qed.

Lemma regexExec_trim (s : string) : regexExec (trim s) = regexExec s.
Proof.
  unfold trim, trimEnd, trimStart.
  rewrite regexExec_stripAll_end. apply regexExec_stripAll_start.
Qed.

End FormFacts.

(** X17. What the add-song form hands on. The form rejects a name or a url
    that is empty after trimming. The song it hands on has the name as it
    was typed, the author "User" and the custom flag, and a url that is not
    empty and that the engine classifies as it would classify the text that
    was typed: the same kind, and for a YouTube link the same video id. A
    url that is no YouTube link is stored trimmed. *)
Theorem submitted_song_plays_as_typed (typedName typedUrl : string) :
  match Form.onSubmit typedName typedUrl with
  | Some song =>
      Form.trim typedName <> "" /\ Form.trim typedUrl <> "" /\
      name song = typedName /\ author song = "User" /\ isCustom song = true /\
      url song <> "" /\
      Url.isYouTubeUrl (url song) = Url.isYouTubeUrl typedUrl /\
      Url.getYouTubeVideoId (url song) = Url.getYouTubeVideoId typedUrl /\
      (Url.isYouTubeUrl typedUrl = false -> url song = Form.trim typedUrl)
  | None => Form.trim typedName = "" \/ Form.trim typedUrl = ""
  end.
Proof.
  unfold Form.onSubmit.
  destruct (Form.trim typedName) as [|a n] eqn:En; cbn [String.length Nat.eqb orb];
    [left; reflexivity|].
  destruct (Form.trim typedUrl) as [|b u] eqn:Eu; cbn [String.length Nat.eqb orb];
    [right; reflexivity|].
  cbv zeta. cbn [name author isCustom url].
  split; [discriminate|]. split; [discriminate|].
  split; [reflexivity|]. split; [reflexivity|]. split; [reflexivity|].
  pose proof (FormFacts.regexExec_trim typedUrl) as Ht. rewrite Eu in Ht.
  unfold Url.convertYouTubeUrl, Url.isYouTubeUrl, Url.getYouTubeVideoId.
  rewrite Ht.
  destruct (Url.regexExec typedUrl) as [id|] eqn:E.
  - pose proof (UrlFacts.regexExec_valid _ _ E) as Hv.
    fold (Url.longForm id). rewrite (UrlFacts.regexExec_longForm id Hv).
    repeat split; discriminate.
  - rewrite Ht. repeat split; discriminate.
Qed.

(** ** Volume and track switches *)

(** X18. The volume is kept per backend. With the audio element in
    charge, [setVolume(v)] sets the element's volume, which [getVolume()]
    then returns; a following [setPlaying] of a YouTube song hands over to
    the player without passing the volume on, so [getVolume()] returns the
    player's own volume, whatever [v] was. *)
Theorem volume_is_per_backend (s : Engine) (p : Player) (song : Song) (v : Q) :
  youtubePlayer s = Some p -> hasApi p = true ->
  currentSongType s = audio_type ->
  Url.isYouTubeUrl (url song) = true ->
  Qle_bool 0 v = true -> Qle_bool v 1 = true ->
  exists s1 s2,
    setVolume v s = (Normal tt, s1) /\
    getVolume s1 = v /\
    setPlaying song s1 = (Normal tt, s2) /\
    currentSongType s2 = youtube_type /\
    getVolume s2 = (playerVolume p / 100)%Q /\
    volume (audio s2) = v.
Proof.
  intros Hp Ha Hc Hu H0 H1.
  pose proof (isYouTubeUrl_getYouTubeVideoId (url song)) as Hid. rewrite Hu in Hid.
  destruct (Url.getYouTubeVideoId (url song)) as [id|] eqn:E; [|discriminate].
  assert (Hne : (id =? "") = false).
  { unfold Url.getYouTubeVideoId in E.
    destruct (Url.regexExec (url song)) as [i|] eqn:E'; [|discriminate].
    injection E as <-. apply UrlFacts.regexExec_valid in E'.
    destruct i; [discriminate|reflexivity]. }
  destruct s as [ctx [? pa ? ? ? ?] yp cst ytui osc ? ? ? ? ? ? ? ? ? ? ?].
  cbn in Hp, Hc. subst yp cst. destruct p as [api ? ? ? ? ?]. cbn in Ha. subst api.
  unfold setVolume, bind at 1, get. cbv beta zeta.
  cbv beta iota zeta delta [youtubeReady currentSongType youtubePlayer].
  rewrite H0, H1. cbn [andb].
  destruct ctx, pa;
    (eexists; eexists; split; [reflexivity|]; split; [reflexivity|];
     unfold setPlaying, bind at 1, get; cbv beta zeta;
     unfold loadSong; rewrite Hu, E;
     repeat first [ progress run_engine | rewrite Hne ];
     (split; [reflexivity|]); repeat split; reflexivity).
Qed.

Lemma volume_is_per_backend_witness :
  exists s1 s2,
    setVolume (1 # 4) (run wrapNext [PlayerBecomesReady] (createMusicManager cfgApi))
    = (Normal tt, s1) /\
    getVolume s1 = (1 # 4)%Q /\
    setPlaying songXYZ s1 = (Normal tt, s2) /\
    currentSongType s2 = youtube_type /\
    getVolume s2 = (100 / 100)%Q /\
    volume (audio s2) = (1 # 4)%Q.
Proof.
  apply (volume_is_per_backend
           (run wrapNext [PlayerBecomesReady] (createMusicManager cfgApi))
           {| hasApi := true; playerState := UNSTARTED; playerVolume := 100%Q;
              playerTime := 0%Q; playerDuration := 0%Q; destroyed := false |}
           songXYZ (1 # 4)%Q); reflexivity.
Defined.

(** X19. Switching between two direct-media songs resumes exactly when
    playback was in progress. With ['audio'] as the current type,
    [setPlaying] of a song whose url is no YouTube link returns normally,
    pauses the element and loads the url; if [isPaused()] was true the
    element stays paused; if it was false, [play()] is called at once and
    the element plays, unless the browser rejects, in which case the
    rejection stays unhandled and the element stays paused. *)
Theorem audio_switch_resumes_iff_playing (s : Engine) (song : Song) :
  currentSongType s = audio_type ->
  Url.isYouTubeUrl (url song) = false ->
  exists s',
    setPlaying song s = (Normal tt, s') /\
    currentSongType s' = audio_type /\
    src (audio s') = url song /\
    intervals s' = intervals s /\
    paused (audio s') = (isPaused s || playRejects s) /\
    trace s' =
      ((if isPaused s then []
        else if playRejects s then [Uncaught NotAllowedError; AudioPlay]
        else [AudioPlay])
       ++ [AudioSrc (url song); AudioPause] ++ trace s)%list.
Proof.
  intros Hc Hu.
  destruct s as [ctx [? pa ? ? ? ?] yp cst ytui osc ? ? ? ? ? ? ? ? rr pr ?].
  cbn in Hc. subst cst.
  unfold setPlaying, bind at 1, get. cbv beta zeta.
  unfold loadSong. rewrite Hu.
  destruct ctx, pa, pr, rr, yp as [[[] ? ? ? ? ?]|];
    repeat first [ progress run_engine | break_goal ];
    eexists; (split; [reflexivity|]); repeat split; reflexivity.
Qed.

Lemma audio_switch_resumes_iff_playing_witness :
  isPaused sAudioPlaying = false /\
  exists s',
    setPlaying songB sAudioPlaying = (Normal tt, s') /\
    src (audio s') = "b.mp3" /\
    paused (audio s') = false /\
    trace s' = (AudioPlay :: AudioSrc "b.mp3" :: AudioPause :: trace sAudioPlaying).
Proof.
  split; [reflexivity|].
  destruct (audio_switch_resumes_iff_playing sAudioPlaying songB eq_refl eq_refl)
    as (s' & H1 & _ & H3 & _ & H5 & H6).
  exists s'. split; [exact H1|]. split; [exact H3|]. split; [exact H5|exact H6].
Defined.
